(** * FL_based_AITP: the metric sweep of [fl_aitp_simulation.cc]

    A shallow embedding of the metric models, the CSV sink and the sweep of
    [main], over IEEE-754 binary64 ([double]) as Rocq's primitive floats. *)

From Stdlib Require Import ZArith List String Bool Lia.
From Stdlib Require Import Uint63 Floats.
From stdpp Require Import gmap strings pretty.

Set Warnings "-inexact-float,-abstract-large-number".
Local Open Scope string_scope.
Local Open Scope list_scope.
Local Open Scope Z_scope.

(** ** Numbers

    [double] is [float] (binary64, round to nearest even).  A [uint32_t] is a
    [Z] in [0, 2^32); converting one to [double] is exact. *)

Definition u32 (n : Z) : Z := n mod 2 ^ 32.

Definition u32_to_double (n : Z) : float := of_uint63 (Uint63.of_Z (u32 n)).

(** ** [struct SimulationParams] *)

Record SimulationParams := {
  nSta : Z;
  simTime : float;
  dpEpsilon : float;
  modes : list string;
  nStaValues : list Z
}.

Definition default_params : SimulationParams := {|
  nSta := 500;
  simTime := 10.0%float;
  dpEpsilon := 1.0%float;
  modes := ["AITP"; "CAIP"; "NAP"];
  nStaValues := [50; 100; 200; 300; 400; 500]
|}.

(** ** Deterministic metric models

    Each model runs over [params.nStaValues] and pushes one value per entry;
    the third argument is accepted and never read, as in the source. *)

Definition ComputeLatency (params : SimulationParams) (mode : string) (nSta : Z)
  : list float :=
  map (fun n =>
         let baseLatency := (10.0 + 200.0 / u32_to_double n)%float in
         if String.eqb mode "AITP" then (baseLatency * 0.9683)%float
         else if String.eqb mode "CAIP" then baseLatency
         else (baseLatency * 1.35)%float)
      (nStaValues params).

Definition ComputeEnergyEfficiency (params : SimulationParams) (mode : string) (nSta : Z)
  : list float :=
  map (fun n =>
         let baseEfficiency := (0.4 * u32_to_double n)%float in
         if String.eqb mode "AITP" then (baseEfficiency * 1.27)%float
         else if String.eqb mode "CAIP" then baseEfficiency
         else (baseEfficiency * 0.78)%float)
      (nStaValues params).

Definition ComputePrivacyLoss (params : SimulationParams) (mode : string) (nSta : Z)
  : list float :=
  map (fun n =>
         let baseLoss := (2.0 / dpEpsilon params)%float in
         if String.eqb mode "AITP" then (baseLoss * 0.875)%float
         else if String.eqb mode "CAIP" then baseLoss
         else (baseLoss * 1.2)%float)
      (nStaValues params).

(** ** What the program takes from its platform

    [log] is <cmath>'s natural logarithm.  [Engine] is the state of a
    [std::default_random_engine]; [engine_default] is the state a
    default-constructed engine starts in (the library's fixed default seed);
    [uniform01 g] is [dist(gen)] for [dist(0.0, 1.0)]: the value drawn and
    the state the engine is left in. *)

Class Platform := {
  log : float -> float;
  Engine : Type;
  engine_default : Engine;
  uniform01 : Engine -> float * Engine
}.

(** ** Output files

    What an [ofstream] has been sent, item by item: [out << s] for a string,
    [out << value] for a [double] (kept as the number that is printed), and
    [std::endl]. *)

Inductive chunk :=
  | Str (s : string)
  | Dbl (d : float)
  | Endl.

Definition is_Endl (c : chunk) : bool :=
  match c with Endl => true | _ => false end.

Inductive openmode := ios_out | ios_app.

(** [out.open(filename, mode)].  Whether the open succeeds is decided by
    the file system ([can_open]: the directory exists, the path may be
    written).  A failed open leaves the file as it was and the stream in a
    failed state, in which every [<<] does nothing.  A successful open with
    [ios::out] alone truncates, with [ios::app] keeps what is there
    (nothing, when the file is new).  A stream is what it holds to write,
    [None] when it has failed. *)
Definition ofstream_open (fs : gmap string (list chunk)) (can_open : string -> bool)
    (filename : string) (mode : openmode) : option (list chunk) :=
  if can_open filename then
    Some match mode with
         | ios_out => []
         | ios_app => default [] (fs !! filename)
         end
  else None.

(** [out << item; ...] *)
Definition ofstream_put (out : option (list chunk)) (items : list chunk)
  : option (list chunk) :=
  option_map (fun buf => buf ++ items) out.

(** [out.close()]: the file holds what the stream was sent; nothing
    changes for a failed stream. *)
Definition ofstream_close (fs : gmap string (list chunk)) (filename : string)
    (out : option (list chunk)) : gmap string (list chunk) :=
  match out with
  | Some buf => <[filename := buf]> fs
  | None => fs
  end.

(** [m[key]] of a [std::map<std::string, bool>]: a missing key is inserted
    with the value [false]. *)
Definition map_index (m : gmap string bool) (key : string) : bool * gmap string bool :=
  match m !! key with
  | Some b => (b, m)
  | None => (false, <[key := false]> m)
  end.

Section Program.
Context {P : Platform}.

(** The state the program's statements act on: the two function-local
    statics ([initialized] of [LogToCsv], [gen] of [GetRandomFailureRate]),
    the files on disk, and which paths the file system lets the process
    open for writing.  The program changes the first three; [openable]
    changes only from outside. *)
Record World := {
  initialized : gmap string bool;
  gen : Engine;
  disk : gmap string (list chunk);
  openable : string -> bool
}.

Definition M (A : Type) : Type := World -> A * World.

#[global] Instance M_ret : MRet M := fun A a w => (a, w).
#[global] Instance M_bind : MBind M :=
  fun A B k c w => let '(a, w') := c w in k a w'.

Definition LogToCsv (filename header : string) (values : list float) : M unit :=
  fun w =>
    let '(seen, init) := map_index (initialized w) filename in
    let '(out, init) :=
      if negb seen
      then (ofstream_put (ofstream_open (disk w) (openable w) filename ios_out)
              [Str header; Endl],
            <[filename := true]> init)
      else (ofstream_open (disk w) (openable w) filename ios_app, init) in
    let out := ofstream_put out (flat_map (fun value => [Dbl value; Str ","]) values) in
    let out := ofstream_put out [Endl] in
    (tt, {| initialized := init; gen := gen w;
            disk := ofstream_close (disk w) filename out;
            openable := openable w |}).

Definition GetRandomFailureRate : M float :=
  fun w =>
    let '(x, g) := uniform01 (gen w) in
    (x, {| initialized := initialized w; gen := g; disk := disk w;
           openable := openable w |}).

Definition ComputeThroughput (params : SimulationParams) (mode : string) (nSta : Z)
  : list float :=
  map (fun n =>
         let baseThroughput := (30.0 * log (1 + u32_to_double n / 2.0))%float in
         if String.eqb mode "AITP" then (baseThroughput * 1.117)%float
         else if String.eqb mode "CAIP" then baseThroughput
         else (baseThroughput * 0.5462)%float)
      (nStaValues params).

Definition ComputeRobustness (params : SimulationParams) (mode : string) (nSta : Z)
  : M (list float) :=
  mapM (fun n : Z =>
          failureRate ← GetRandomFailureRate;
          let baseRobustness := (1.0 - failureRate * 0.5)%float in
          mret (if String.eqb mode "AITP" then (baseRobustness * 1.335)%float
                else if String.eqb mode "CAIP" then baseRobustness
                else (baseRobustness * 0.8)%float))
       (nStaValues params).

(** *** [main]

    The command line: the numbers given for [--nSta] and [--dpEpsilon],
    when given.  [cmd.Parse] stores them in the variables handed to
    [AddValue]; a number for [--nSta] that does not fit [uint32_t] makes it
    report the error and end the program ([None]).  [AddValue] is given no
    validator, so nothing else is tested. *)
Record CommandLine := {
  cmd_nSta : option N;
  cmd_dpEpsilon : option float
}.

Definition parse_uint32 (n : N) : option Z :=
  if Z.of_N n <? 2 ^ 32 then Some (Z.of_N n) else None.

Definition Parse (cmd : CommandLine) (params : SimulationParams)
  : option SimulationParams :=
  k ← match cmd_nSta cmd with
      | Some n => parse_uint32 n
      | None => Some (nSta params)
      end;
  Some {| nSta := k;
          simTime := simTime params;
          dpEpsilon := default (dpEpsilon params) (cmd_dpEpsilon cmd);
          modes := modes params;
          nStaValues := nStaValues params |}.

(** The literal passed as header by every call of [LogToCsv] in [main]. *)
Definition header : string := "nSta=50,nSta=100,nSta=200,nSta=300,nSta=400,nSta=500".

(** The body of the loop over [params.modes] (lines 185-204 of [main]).
    The calls into ns-3 before the loop (nodes, channel, devices, mobility,
    energy model, addresses) and after it ([Simulator::Stop], [Run],
    [Destroy]) are library code: of the parameters they are handed
    [params.nSta] and [params.simTime] only, and whether they return is
    not modelled.  The loop is modelled as it runs once reached. *)
Definition MetricsForMode (params : SimulationParams) (mode : string) : M unit :=
  let prefix := "results_" +:+ mode in
  let latencies := ComputeLatency params mode (nSta params) in
  let throughputs := ComputeThroughput params mode (nSta params) in
  let energyEfficiencies := ComputeEnergyEfficiency params mode (nSta params) in
  let privacyLosses := ComputePrivacyLoss params mode (nSta params) in
  robustnesses ← ComputeRobustness params mode (nSta params);
  LogToCsv (prefix +:+ "_latency.csv") header latencies;;
  LogToCsv (prefix +:+ "_throughput.csv") header throughputs;;
  LogToCsv (prefix +:+ "_energy.csv") header energyEfficiencies;;
  LogToCsv (prefix +:+ "_privacy.csv") header privacyLosses;;
  LogToCsv (prefix +:+ "_robustness.csv") header robustnesses.

Definition MetricsForAllModes (params : SimulationParams) : M unit :=
  mapM (MetricsForMode params) (modes params);; mret tt.

(** The statics of a process start as the language initialises them: the
    map empty, the engine default-constructed.  The disk is what earlier
    processes left. *)
Definition process_start (fs : gmap string (list chunk)) (ok : string -> bool) : World :=
  {| initialized := ∅; gen := engine_default; disk := fs; openable := ok |}.

(** *** Reading the program's effects

    [row values] is what the loop of [LogToCsv] and the final [endl] send;
    [seen w f] reads the static map without changing it. *)
Definition row (values : list float) : list chunk :=
  flat_map (fun value => [Dbl value; Str ","]) values ++ [Endl].

Definition seen (w : World) (filename : string) : bool :=
  default false (initialized w !! filename).

Definition set_gen (g : Engine) (w : World) : World :=
  {| initialized := initialized w; gen := g; disk := disk w;
     openable := openable w |}.

(** A change of the file system from outside the process. *)
Definition set_openable (ok : string -> bool) (w : World) : World :=
  {| initialized := initialized w; gen := gen w; disk := disk w; openable := ok |}.

(** One call of [LogToCsv], as data, and a sequence of calls run in order. *)
Definition write : Type := string * string * list float.

Definition apply_write (w : World) (c : write) : World :=
  snd (LogToCsv c.1.1 c.1.2 c.2 w).

Definition apply_writes (ws : list write) (w : World) : World :=
  fold_left apply_write ws w.

(** The rows sent to [filename] by a sequence of calls, in call order. *)
Definition rows_for (filename : string) (ws : list write) : list chunk :=
  flat_map (fun c : write => if String.eqb c.1.1 filename then row c.2 else []) ws.

(** The header passed by the first call that names [filename]. *)
Fixpoint first_header (filename : string) (ws : list write) : option string :=
  match ws with
  | [] => None
  | c :: ws' =>
      if String.eqb c.1.1 filename then Some c.1.2 else first_header filename ws'
  end.

(** [k] successive draws from the engine. *)
Fixpoint draw_n (k : nat) (g : Engine) : list float * Engine :=
  match k with
  | O => ([], g)
  | S k' =>
      let '(x, g1) := uniform01 g in
      let '(xs, g2) := draw_n k' g1 in
      (x :: xs, g2)
  end.

(** The value [ComputeRobustness] pushes for one draw. *)
Definition robustness_of (mode : string) (failureRate : float) : float :=
  let baseRobustness := (1.0 - failureRate * 0.5)%float in
  if String.eqb mode "AITP" then (baseRobustness * 1.335)%float
  else if String.eqb mode "CAIP" then baseRobustness
  else (baseRobustness * 0.8)%float.

(** The five calls of [LogToCsv] of one iteration of the loop over modes,
    given the robustness series drawn in that iteration. *)
Definition writes_of_mode (params : SimulationParams) (mode : string)
    (robustnesses : list float) : list write :=
  let prefix := "results_" +:+ mode in
  [ (prefix +:+ "_latency.csv", header, ComputeLatency params mode (nSta params));
    (prefix +:+ "_throughput.csv", header, ComputeThroughput params mode (nSta params));
    (prefix +:+ "_energy.csv", header, ComputeEnergyEfficiency params mode (nSta params));
    (prefix +:+ "_privacy.csv", header, ComputePrivacyLoss params mode (nSta params));
    (prefix +:+ "_robustness.csv", header, robustnesses) ].

(** All calls of [LogToCsv] of the loop over [ms], the engine threaded
    through the iterations. *)
Fixpoint sweep_writes (params : SimulationParams) (ms : list string) (g : Engine)
  : list write * Engine :=
  match ms with
  | [] => ([], g)
  | mode :: ms' =>
      let '(xs, g1) := draw_n (length (nStaValues params)) g in
      let '(ws, g2) := sweep_writes params ms' g1 in
      (writes_of_mode params mode (map (robustness_of mode) xs) ++ ws, g2)
  end.

(** *** The four deterministic metrics, by name *)
Inductive metric := Latency | Throughput | EnergyEfficiency | PrivacyLoss.

Definition series (m : metric) (params : SimulationParams) (mode : string) (k : Z)
  : list float :=
  match m with
  | Latency => ComputeLatency params mode k
  | Throughput => ComputeThroughput params mode k
  | EnergyEfficiency => ComputeEnergyEfficiency params mode k
  | PrivacyLoss => ComputePrivacyLoss params mode k
  end.

Definition file_suffix (m : metric) : string :=
  match m with
  | Latency => "_latency.csv"
  | Throughput => "_throughput.csv"
  | EnergyEfficiency => "_energy.csv"
  | PrivacyLoss => "_privacy.csv"
  end.

(** The calls of [LogToCsv] made by the loop in a process that has drawn
    nothing before. *)
Definition loop_writes (params : SimulationParams) : list write :=
  (sweep_writes params (modes params) engine_default).1.

(** *** The model of the specification

    Baseline formulas and strategy factors as the specification tabulates
    them, evaluated in binary64. *)
Definition spec_baseline (m : metric) (eps : float) (n : Z) : float :=
  match m with
  | Latency => (10 + 200 / u32_to_double n)%float
  | Throughput => (30 * log (1 + u32_to_double n / 2))%float
  | EnergyEfficiency => (0.4 * u32_to_double n)%float
  | PrivacyLoss => (2 / eps)%float
  end.

Definition spec_factor (m : metric) (strategy : string) : option float :=
  if String.eqb strategy "AITP" then
    Some match m with
         | Latency => 0.9683 | Throughput => 1.117
         | EnergyEfficiency => 1.27 | PrivacyLoss => 0.875
         end%float
  else if String.eqb strategy "CAIP" then Some 1.0%float
  else if String.eqb strategy "NAP" then
    Some match m with
         | Latency => 1.35 | Throughput => 0.5462
         | EnergyEfficiency => 0.78 | PrivacyLoss => 1.2
         end%float
  else None.

(** The header the specification describes: one label per swept size. *)
Definition spec_header (sweepSizes : list Z) : string :=
  String.concat "," (map (fun v => "nSta=" +:+ pretty v) sweepSizes).

(** Record updates. *)
Definition set_nSta (k : Z) (params : SimulationParams) : SimulationParams :=
  {| nSta := k; simTime := simTime params; dpEpsilon := dpEpsilon params;
     modes := modes params; nStaValues := nStaValues params |}.

Definition set_dpEpsilon (eps : float) (params : SimulationParams) : SimulationParams :=
  {| nSta := nSta params; simTime := simTime params; dpEpsilon := eps;
     modes := modes params; nStaValues := nStaValues params |}.

Definition set_nStaValues (ns : list Z) (params : SimulationParams) : SimulationParams :=
  {| nSta := nSta params; simTime := simTime params; dpEpsilon := dpEpsilon params;
     modes := modes params; nStaValues := ns |}.

End Program.

(** ** A platform to run the program on

    The statements about the program hold on every platform.  To evaluate the
    program on examples, this one has the minimal-standard generator
    ([x := 16807 x mod (2^31 - 1)], started at 1) with two draws per value,
    and a logarithm summed from the series of [atanh]. *)

Module Sample.

Definition minstd_next (x : Z) : Z := (16807 * x) mod 2147483647.

Definition Z_to_double (z : Z) : float :=
  if z <? 0 then (- of_uint63 (Uint63.of_Z (- z)))%float
  else of_uint63 (Uint63.of_Z z).

Definition canonical (g : Z) : float * Z :=
  let x1 := minstd_next g in
  let x2 := minstd_next x1 in
  let r := 2147483646.0%float in
  let sum := (Z_to_double (x1 - 1) + Z_to_double (x2 - 1) * r)%float in
  let ret := (sum / (r * r))%float in
  (if (1 <=? ret)%float then 0x1.fffffffffffffp-1%float else ret, x2).

Fixpoint atanh_terms (fuel : nat) (t2 power : float) (k : Z) : float :=
  match fuel with
  | O => 0%float
  | S fuel' =>
      (power / Z_to_double k + atanh_terms fuel' t2 (power * t2) (k + 2))%float
  end.

Definition ln (x : float) : float :=
  if (x <? 0)%float then nan
  else if (x =? 0)%float then neg_infinity
  else if (x =? infinity)%float then infinity
  else if (x =? x)%float then
    let '(m, e) := FloatOps.Z.frexp x in
    let t := ((m - 1) / (m + 1))%float in
    (2 * atanh_terms 40 (t * t) t 1 + Z_to_double e * 0x1.62e42fefa39efp-1)%float
  else nan.

#[export] Instance platform : Platform := {|
  log := ln;
  Engine := Z;
  engine_default := 1;
  uniform01 := canonical
|}.

End Sample.

(** ** Definitions used by the proofs *)

(** The value [ComputeLatency] pushes for one swept size. *)
Definition latency_of (mode : string) (n : Z) : float :=
  let baseLatency := (10.0 + 200.0 / u32_to_double n)%float in
  if String.eqb mode "AITP" then (baseLatency * 0.9683)%float
  else if String.eqb mode "CAIP" then baseLatency
  else (baseLatency * 1.35)%float.

(** [latency_of] on a machine integer, the branch on [mode] taken once. *)
Definition latency_at (mode : string) : int -> float :=
  let scale : float -> float :=
    if String.eqb mode "AITP" then fun baseLatency => (baseLatency * 0.9683)%float
    else if String.eqb mode "CAIP" then fun baseLatency => baseLatency
    else fun baseLatency => (baseLatency * 1.35)%float in
  fun c => scale (10.0 + 200.0 / of_uint63 c)%float.

(** [f (c + 1) < f c], [f (c + 2) < f (c + 1)], ... for [fuel] steps. *)
Fixpoint decreasing_from (f : int -> float) (fuel : nat) (c : int) : bool :=
  match fuel with
  | O => true
  | S fuel' => (f (c + 1)%uint63 <? f c)%float && decreasing_from f fuel' (c + 1)%uint63
  end.

(** The largest swept size up to which the latency of a strategy is
    strictly decreasing: the next size gets the same value. *)
Definition strict_reach (mode : string) : Z :=
  if String.eqb mode "AITP" then 237306794 else 335557272.

(** [x] is what [t] right shifts make of the integer [m0]: the quotient by
    [2^t], with the two flags that say whether the remainder is at least
    a half, and whether it is neither zero nor a half. *)
Definition shifted (m0 t : Z) (x : shr_record) : Prop :=
  exists rho : Z,
    m0 = shr_m x * 2 ^ t + rho /\ 0 <= rho < 2 ^ t /\ 0 <= shr_m x
    /\ shr_r x = (2 ^ t <=? 2 * rho)
    /\ shr_s x = negb ((rho =? 0) || (2 * rho =? 2 ^ t)).

(** Rounding to 53 bits, apart from the exponent: the mantissa that
    [binary_round_aux] keeps of [m] (with the bits [l] already dropped) and
    the number of places it shifts. *)
Definition round_core (m : Z) (l : location) : Z * Z :=
  let n1 := Zdigits2 m - 53 in
  let r1 := (shr (shr_record_of_loc m l) 0 n1).1 in
  let m2 := round_nearest_even (shr_m r1) (loc_of_shr_record r1) in
  let n2 := Zdigits2 m2 - 53 in
  (shr_m (shr (shr_record_of_loc m2 loc_Exact) 0 n2).1, Z.max 0 n1 + Z.max 0 n2).

(** Multiplication by two, on the representation of a [double]. *)
Definition SFshift1 (x : spec_float) : spec_float :=
  match x with
  | S754_finite s m e => S754_finite s m (e + 1)
  | _ => x
  end.

(** The exponent of [x], when [x] is finite, lies between [lo] and [hi]. *)
Definition exp_in (lo hi : Z) (x : spec_float) : Prop :=
  match x with
  | S754_finite _ _ e => lo <= e <= hi
  | _ => True
  end.

Definition exp_inb (lo hi : Z) (x : spec_float) : bool :=
  match x with
  | S754_finite _ _ e => (lo <=? e) && (e <=? hi)
  | _ => true
  end.

(** [x] is a zero, a finite number or an infinity of sign [s]. *)
Definition has_sign (s : bool) (x : spec_float) : Prop :=
  match x with
  | S754_zero s' | S754_infinity s' | S754_finite s' _ _ => s' = s
  | S754_nan => False
  end.

(** [p c], [p (c + 1)], ... for [fuel] machine integers. *)
Fixpoint holds_from (p : int -> bool) (fuel : nat) (c : int) : bool :=
  match fuel with
  | O => true
  | S fuel' => p c && holds_from p fuel' (c + 1)%uint63
  end.

(** At the swept size [c]: AITP has the lowest latency and the highest
    energy efficiency, NAP (any other identifier) the highest latency and
    the lowest energy efficiency, CAIP lies strictly between. *)
Definition strategies_ordered_at (c : int) : bool :=
  let baseLatency := (10.0 + 200.0 / of_uint63 c)%float in
  let baseEfficiency := (0.4 * of_uint63 c)%float in
  (baseLatency * 0.9683 <? baseLatency)%float
  && (baseLatency <? baseLatency * 1.35)%float
  && (baseEfficiency * 0.78 <? baseEfficiency)%float
  && (baseEfficiency <? baseEfficiency * 1.27)%float.

(** The names of the files [main] writes. *)
Definition output_files : list string :=
  flat_map (fun mode =>
              map (fun suffix => "results_" +:+ mode +:+ suffix)
                ["_latency.csv"; "_throughput.csv"; "_energy.csv"; "_privacy.csv";
                 "_robustness.csv"])
    (modes default_params).

(** * Properties *)

(** ** Binary64 facts *)

Lemma digits2_pos_xO (p : positive) :
  Zpos (digits2_pos p~0) = Zpos (digits2_pos p) + 1.
Proof. change (Zpos (Pos.succ (digits2_pos p)) = Zpos (digits2_pos p) + 1). lia. Qed.

Lemma digits2_pos_iter_xO (n : nat) (p : positive) :
  Zpos (digits2_pos (Nat.iter n xO p)) = Zpos (digits2_pos p) + Z.of_nat n.
Proof.
  induction n as [|n IH].
  - rewrite Z.add_0_r. reflexivity.
  - change (Nat.iter (S n) xO p) with (xO (Nat.iter n xO p)).
    rewrite digits2_pos_xO, IH. lia.
Qed.

Lemma mul_pow52 (m : positive) :
  (m * 4503599627370496)%positive = Nat.iter 52 xO m.
Proof. rewrite Pos.mul_comm. reflexivity. Qed.

Lemma digits2_pos_shift52 (m : positive) :
  Zpos (digits2_pos (m * 4503599627370496)) = Zpos (digits2_pos m) + 52.
Proof. rewrite mul_pow52, digits2_pos_iter_xO. reflexivity. Qed.

Lemma shr_shift52 (m : positive) :
  SpecFloat.iter_pos shr_1 52
    {| shr_m := Zpos (m * 4503599627370496); shr_r := false; shr_s := false |}
  = {| shr_m := Zpos m; shr_r := false; shr_s := false |}.
Proof. rewrite mul_pow52. reflexivity. Qed.

Lemma shr_fexp_canonical (m : positive) (e : Z) :
  canonical_mantissa prec emax m e = true ->
  shr_fexp prec emax (Zpos m) e loc_Exact
  = ({| shr_m := Zpos m; shr_r := false; shr_s := false |}, e).
Proof.
  intros Hc. apply Z.eqb_eq in Hc.
  unfold shr_fexp, Zdigits2. rewrite Hc, Z.sub_diag. reflexivity.
Qed.

Lemma shr_fexp_pow52 (m : positive) (e : Z) :
  canonical_mantissa prec emax m (e + 52) = true ->
  shr_fexp prec emax (Zpos (m * 4503599627370496)) e loc_Exact
  = ({| shr_m := Zpos m; shr_r := false; shr_s := false |}, e + 52).
Proof.
  intros Hc. apply Z.eqb_eq in Hc.
  unfold shr_fexp, Zdigits2. rewrite digits2_pos_shift52.
  replace (Z.pos (digits2_pos m) + 52 + e) with (Z.pos (digits2_pos m) + (e + 52)) by lia.
  rewrite Hc. replace (e + 52 - e) with 52 by lia.
  unfold shr_record_of_loc, shr. rewrite shr_shift52. reflexivity.
Qed.

(** Multiplying by a power of two whose mantissa is [2^52] only moves the
    exponent, as long as the result is representable with the same mantissa. *)
Lemma SFmul_pow2 (sx : bool) (mx : positive) (ex ey : Z) :
  canonical_mantissa prec emax mx (ex + ey + 52) = true ->
  ex + ey + 52 <= emax - prec ->
  SF64mul (S754_finite sx mx ex) (S754_finite false 4503599627370496 ey)
  = S754_finite sx mx (ex + ey + 52).
Proof.
  intros Hc Hle.
  unfold SF64mul, SFmul, binary_round_aux.
  rewrite shr_fexp_pow52 by exact Hc.
  cbn [loc_of_shr_record shr_m round_nearest_even].
  rewrite shr_fexp_canonical by exact Hc.
  cbn [shr_m].
  apply Z.leb_le in Hle. rewrite Hle.
  destruct sx; reflexivity.
Qed.

(** [x * 1.0] is [x], for every [double] (NaN, infinities and zeros too). *)
Lemma mul_1_r (x : float) : (x * 1 = x)%float.
Proof.
  apply Prim2SF_inj. rewrite mul_spec.
  pose proof (Prim2SF_valid x) as Hv.
  change (Prim2SF 1) with (S754_finite false 4503599627370496 (-52)).
  destruct (Prim2SF x) as [s|s|  |s m e]; try (destruct s; reflexivity); try reflexivity.
  simpl in Hv. unfold bounded in Hv. apply andb_true_iff in Hv as [Hc Hb].
  rewrite SFmul_pow2.
  - f_equal. lia.
  - replace (e + -52 + 52) with e by lia. exact Hc.
  - apply Z.leb_le in Hb. lia.
Qed.

Lemma fexp_linear (x : Z) : -1021 <= x -> fexp prec emax x = x - 53.
Proof. intros H. unfold fexp, SpecFloat.emin, prec, emax. lia. Qed.

Lemma Zdigits2_nonneg (z : Z) : 0 <= Zdigits2 z.
Proof. destruct z; cbn; lia. Qed.

Lemma digits2_pos_upper (p : positive) (k : Z) :
  Zpos p < 2 ^ k -> Zpos (digits2_pos p) <= k.
Proof.
  revert k. induction p as [p IH|p IH|]; intros k Hk.
  - assert (0 < k) as Hk0.
    { destruct (Z.ltb_spec 0 k) as [|Hle]; [assumption|].
      destruct (Z.eq_dec k 0) as [->|]; [cbn in Hk; lia|].
      rewrite Z.pow_neg_r in Hk by lia. lia. }
    replace k with (Z.succ (k - 1)) in Hk by lia.
    rewrite Z.pow_succ_r in Hk by lia.
    specialize (IH (k - 1)).
    change (Zpos (digits2_pos p~1)) with (Zpos (Pos.succ (digits2_pos p))).
    lia.
  - assert (0 < k) as Hk0.
    { destruct (Z.ltb_spec 0 k) as [|Hle]; [assumption|].
      destruct (Z.eq_dec k 0) as [->|]; [cbn in Hk; lia|].
      rewrite Z.pow_neg_r in Hk by lia. lia. }
    replace k with (Z.succ (k - 1)) in Hk by lia.
    rewrite Z.pow_succ_r in Hk by lia.
    specialize (IH (k - 1)).
    change (Zpos (digits2_pos p~0)) with (Zpos (Pos.succ (digits2_pos p))).
    lia.
  - destruct (Z.ltb_spec 0 k) as [|Hle]; [cbn; lia|].
    destruct (Z.eq_dec k 0) as [->|]; [cbn in Hk; lia|].
    rewrite Z.pow_neg_r in Hk by lia. lia.
Qed.

Lemma digits2_pos_lower (p : positive) :
  2 ^ (Zpos (digits2_pos p) - 1) <= Zpos p.
Proof.
  induction p as [p IH|p IH|].
  - change (Zpos (digits2_pos p~1)) with (Zpos (Pos.succ (digits2_pos p))).
    replace (Zpos (Pos.succ (digits2_pos p)) - 1) with (Z.succ (Zpos (digits2_pos p) - 1)) by lia.
    rewrite Z.pow_succ_r by lia. lia.
  - change (Zpos (digits2_pos p~0)) with (Zpos (Pos.succ (digits2_pos p))).
    replace (Zpos (Pos.succ (digits2_pos p)) - 1) with (Z.succ (Zpos (digits2_pos p) - 1)) by lia.
    rewrite Z.pow_succ_r by lia. lia.
  - cbn. lia.
Qed.

Lemma Zdigits2_upper (z k : Z) : 0 <= z -> z < 2 ^ k -> 0 <= k -> Zdigits2 z <= k.
Proof.
  intros Hz Hk Hk0. destruct z as [|p|p]; [cbn; lia| |lia].
  apply digits2_pos_upper. exact Hk.
Qed.

(** Shifting right never grows the mantissa; it adds to the exponent. *)
Lemma shr_1_bounds (r : shr_record) (B : Z) :
  0 <= shr_m r <= B -> 0 <= shr_m (shr_1 r) <= B.
Proof.
  destruct r as [m rb sb]. cbn [shr_m]. intros H.
  destruct m as [|[p|p|]|p]; cbn [shr_1 shr_m]; lia.
Qed.

Lemma iter_pos_invariant {A : Type} (Q : A -> Prop) (f : A -> A) :
  (forall x, Q x -> Q (f x)) -> forall (n : positive) (x : A), Q x -> Q (SpecFloat.iter_pos f n x).
Proof.
  intros Hf. induction n as [n IH|n IH|]; intros x Hx; cbn.
  - apply IH, IH, Hf, Hx.
  - apply IH, IH, Hx.
  - apply Hf, Hx.
Qed.

Lemma shr_bounds (r : shr_record) (e n B : Z) :
  0 <= shr_m r <= B -> 0 <= shr_m (shr r e n).1 <= B.
Proof.
  intros H. destruct n as [|p|p]; cbn [shr fst]; try exact H.
  apply (iter_pos_invariant (fun r => 0 <= shr_m r <= B)); [|exact H].
  intros x. apply shr_1_bounds.
Qed.

Lemma shr_exp (r : shr_record) (e n : Z) :
  shr r e n = ((shr r 0 n).1, e + Z.max 0 n).
Proof. destruct n; cbn [shr fst]; f_equal; lia. Qed.

Lemma shr_record_of_loc_m (m : Z) (l : location) : shr_m (shr_record_of_loc m l) = m.
Proof. destruct l as [|[| |]]; reflexivity. Qed.

Lemma round_nearest_even_bounds (m : Z) (l : location) :
  m <= round_nearest_even m l <= m + 1.
Proof. destruct l as [|[| |]]; cbn; try destruct (Z.even m); lia. Qed.

Lemma div_eucl_div_mod (a b : Z) : Z.div_eucl a b = (a / b, a mod b).
Proof. unfold Z.div, Z.modulo. destruct (Z.div_eucl a b). reflexivity. Qed.

Lemma shr_fexp_linear (m e : Z) (l : location) :
  -1021 <= e ->
  shr_fexp prec emax m e l
  = ((shr (shr_record_of_loc m l) 0 (Zdigits2 m - 53)).1, e + Z.max 0 (Zdigits2 m - 53)).
Proof.
  intros He. unfold shr_fexp.
  rewrite fexp_linear by (pose proof (Zdigits2_nonneg m); lia).
  rewrite shr_exp. f_equal; [f_equal; f_equal; lia|f_equal; f_equal; lia].
Qed.

Lemma binary_round_aux_linear (s : bool) (m e : Z) (l : location) :
  -1021 <= e ->
  binary_round_aux prec emax s m e l
  = match (round_core m l).1 with
    | Z0 => S754_zero s
    | Zpos p =>
        if e + (round_core m l).2 <=? 971
        then S754_finite s p (e + (round_core m l).2)
        else S754_infinity s
    | Zneg _ => S754_nan
    end.
Proof.
  intros He. unfold binary_round_aux, round_core.
  rewrite shr_fexp_linear by exact He.
  rewrite shr_fexp_linear by lia.
  cbn [fst snd]. rewrite Z.add_assoc. reflexivity.
Qed.

Lemma round_core_bounds (m : Z) (l : location) :
  0 <= m < 2 ^ 54 -> 0 <= (round_core m l).1 /\ 0 <= (round_core m l).2 <= 3.
Proof.
  intros Hm. unfold round_core. cbn [fst snd].
  set (r1 := (shr (shr_record_of_loc m l) 0 (Zdigits2 m - 53)).1).
  set (m2 := round_nearest_even (shr_m r1) (loc_of_shr_record r1)).
  assert (0 <= shr_m r1 <= m) as Hr1.
  { apply shr_bounds. rewrite shr_record_of_loc_m. lia. }
  pose proof (round_nearest_even_bounds (shr_m r1) (loc_of_shr_record r1)) as Hm2.
  fold m2 in Hm2.
  assert (Zdigits2 m <= 54) as Hd1 by (apply Zdigits2_upper; lia).
  assert (Zdigits2 m2 <= 55) as Hd2.
  { apply Zdigits2_upper; lia. }
  split; [|lia].
  apply (shr_bounds _ _ _ m2). rewrite shr_record_of_loc_m. lia.
Qed.

(** [2.0 / x] for a normal [x] away from the ends of the exponent range. *)
Lemma SFdiv_two (m : positive) (e : Z) :
  Zpos (digits2_pos m) = 53 -> -1071 <= e <= 917 ->
  SF64div (S754_finite false 4503599627370496 (-51)) (S754_finite false m e)
  = let c := round_core (2 ^ 105 / Zpos m) (new_location (Zpos m) (2 ^ 105 mod Zpos m)) in
    match c.1 with
    | Z0 => S754_zero false
    | Zpos p => S754_finite false p (-104 - e + c.2)
    | Zneg _ => S754_nan
    end.
Proof.
  intros Hd He.
  unfold SF64div, SFdiv, SFdiv_core_binary.
  change (Zdigits2 (Zpos 4503599627370496)) with 53.
  unfold Zdigits2. rewrite Hd.
  rewrite fexp_linear by lia.
  replace (Z.min (53 + -51 - (53 + e) - 53) (-51 - e)) with (-104 - e) by lia.
  replace (-51 - e - (-104 - e)) with 53 by lia.
  change (Z.shiftl (Zpos 4503599627370496) 53) with (2 ^ 105).
  pose proof (digits2_pos_lower m) as Hlow. rewrite Hd in Hlow.
  change (2 ^ (53 - 1)) with 4503599627370496 in Hlow.
  rewrite div_eucl_div_mod.
  rewrite binary_round_aux_linear by lia.
  cbn zeta.
  assert (0 <= 2 ^ 105 / Zpos m < 2 ^ 54) as Hq.
  { split; [apply Z.div_pos; lia|].
    apply Z.div_lt_upper_bound; [lia|].
    change (2 ^ 105) with (4503599627370496 * 2 ^ 53).
    change (2 ^ 54) with (2 * 2 ^ 53). nia. }
  destruct (round_core_bounds _ (new_location (Zpos m) (2 ^ 105 mod Zpos m)) Hq) as [H1 H2].
  destruct (round_core _ _).1 as [|p|p]; try reflexivity.
  destruct (Z.leb_spec (-104 - e + (round_core (2 ^ 105 / Zpos m)
             (new_location (Zpos m) (2 ^ 105 mod Zpos m))).2) 971); [reflexivity|lia].
Qed.

Lemma binary_round_aux_pow52 (s : bool) (m : positive) (e : Z) :
  canonical_mantissa prec emax m (e + 52) = true ->
  e + 52 <= emax - prec ->
  binary_round_aux prec emax s (Zpos (m * 4503599627370496)) e loc_Exact
  = S754_finite s m (e + 52).
Proof.
  intros Hc Hle. unfold binary_round_aux.
  rewrite shr_fexp_pow52 by exact Hc.
  cbn [loc_of_shr_record shr_m round_nearest_even].
  rewrite shr_fexp_canonical by exact Hc.
  cbn [shr_m]. apply Z.leb_le in Hle. rewrite Hle. reflexivity.
Qed.

(** [2.0 * x] only moves the exponent when the result is representable. *)
Lemma SFmul_two_l (s : bool) (m : positive) (e : Z) :
  bounded prec emax m (e + 1) = true ->
  SF64mul (S754_finite false 4503599627370496 (-51)) (S754_finite s m e)
  = S754_finite s m (e + 1).
Proof.
  intros Hb. unfold bounded in Hb. apply andb_true_iff in Hb as [Hc Hle].
  apply Z.leb_le in Hle.
  unfold SF64mul, SFmul. rewrite Pos.mul_comm.
  replace (e + 1) with (-51 + e + 52) in * by lia.
  apply binary_round_aux_pow52; [exact Hc|exact Hle].
Qed.

(** [x / 2.0] only moves the exponent of a normal [x] whose half is normal. *)
Lemma SFdiv_by_two (s : bool) (m : positive) (e : Z) :
  Zpos (digits2_pos m) = 53 -> -1072 <= e <= 971 ->
  SF64div (S754_finite s m e) (S754_finite false 4503599627370496 (-51))
  = S754_finite s m (e - 1).
Proof.
  intros Hd He.
  unfold SF64div, SFdiv, SFdiv_core_binary.
  change (Zdigits2 (Zpos 4503599627370496)) with 53.
  unfold Zdigits2. rewrite Hd.
  rewrite fexp_linear by lia.
  replace (Z.min (53 + e - (53 + -51) - 53) (e - -51)) with (e - 2) by lia.
  replace (e - -51 - (e - 2)) with 53 by lia.
  assert (Z.div_eucl (Z.shiftl (Zpos m) 53) (Zpos 4503599627370496) = (Zpos m~0, 0)) as ->.
  { rewrite Z.shiftl_mul_pow2 by lia.
    replace (Zpos m * 2 ^ 53) with (Zpos m~0 * 4503599627370496)
      by (change (2 ^ 53) with (2 * 4503599627370496); lia).
    rewrite div_eucl_div_mod, Z.div_mul, Z.mod_mul by lia. reflexivity. }
  change (new_location (Zpos 4503599627370496) 0) with loc_Exact.
  unfold binary_round_aux.
  assert (shr_fexp prec emax (Zpos m~0) (e - 2) loc_Exact
          = ({| shr_m := Zpos m; shr_r := false; shr_s := false |}, e - 1)) as ->.
  { unfold shr_fexp, Zdigits2. rewrite digits2_pos_xO, Hd.
    rewrite fexp_linear by lia.
    replace (53 + 1 + (e - 2) - 53 - (e - 2)) with 1 by lia.
    cbn. f_equal. lia. }
  cbn [loc_of_shr_record shr_m round_nearest_even].
  rewrite shr_fexp_canonical.
  - cbn [shr_m]. destruct (Z.leb_spec (e - 1) (emax - prec)) as [|Hgt]; [|unfold emax, prec in Hgt; lia].
    destruct s; reflexivity.
  - unfold canonical_mantissa. rewrite Hd, fexp_linear by lia. apply Z.eqb_eq. lia.
Qed.

Lemma SFleb_lower (x : spec_float) (m0 : positive) (e0 : Z) :
  SFleb (S754_finite false m0 e0) x = true ->
  x = S754_infinity false \/ exists m e, x = S754_finite false m e /\ e0 <= e.
Proof.
  destruct x as [s|s| |s m e]; unfold SFleb; cbn; try discriminate.
  - destruct s; [discriminate|]. intros _. left. reflexivity.
  - destruct s; [discriminate|].
    destruct (Z.compare_spec e0 e) as [Hc|Hc|Hc]; intros Hle; try discriminate;
      right; exists m, e; (split; [reflexivity|lia]).
Qed.

Lemma SFleb_upper (m : positive) (e : Z) (m0 : positive) (e0 : Z) :
  SFleb (S754_finite false m e) (S754_finite false m0 e0) = true -> e <= e0.
Proof.
  unfold SFleb. cbn.
  destruct (Z.compare_spec e e0) as [Hc|Hc|Hc]; intros Hle; try discriminate; lia.
Qed.

Lemma valid_normal (s : bool) (m : positive) (e : Z) :
  valid_binary (S754_finite s m e) = true -> -1074 < e ->
  Zpos (digits2_pos m) = 53 /\ e <= 971.
Proof.
  cbn. unfold bounded, canonical_mantissa, fexp, SpecFloat.emin, emax, prec.
  intros H He. apply andb_true_iff in H as [H1 H2].
  apply Z.eqb_eq in H1. apply Z.leb_le in H2. lia.
Qed.

(** Halving the divisor doubles [2.0 / x], exactly, for [x] between
    [2^-1000] and [2^900]. *)
Lemma two_div_half (x : float) :
  (0x1p-1000 <=? x)%float = true -> (x <=? 0x1p+900)%float = true ->
  (2 / (x / 2) = 2 * (2 / x))%float.
Proof.
  intros Hlo Hhi. rewrite leb_spec in Hlo, Hhi.
  apply Prim2SF_inj. rewrite mul_spec, !div_spec.
  pose proof (Prim2SF_valid x) as Hv.
  pose proof (Prim2SF_valid (2 / (x / 2))) as Hv2. rewrite !div_spec in Hv2.
  change (Prim2SF 0x1p-1000) with (S754_finite false 4503599627370496 (-1052)) in Hlo.
  change (Prim2SF 0x1p+900) with (S754_finite false 4503599627370496 848) in Hhi.
  change (Prim2SF 2) with (S754_finite false 4503599627370496 (-51)) in *.
  apply SFleb_lower in Hlo as [Hinf|(m & e & Hx & He)].
  { rewrite Hinf in Hhi. discriminate. }
  rewrite Hx in *. apply SFleb_upper in Hhi.
  destruct (valid_normal _ _ _ Hv ltac:(lia)) as [Hd _].
  rewrite SFdiv_by_two in * by (try exact Hd; lia).
  rewrite !SFdiv_two in * by (try exact Hd; lia).
  cbn zeta in *.
  destruct (round_core _ _).1 as [|p|p]; try reflexivity.
  replace (-104 - (e - 1) + (round_core (2 ^ 105 / Z.pos m)
             (new_location (Z.pos m) (2 ^ 105 mod Z.pos m))).2)
    with (-104 - e + (round_core (2 ^ 105 / Z.pos m)
             (new_location (Z.pos m) (2 ^ 105 mod Z.pos m))).2 + 1) in * by lia.
  rewrite SFmul_two_l; [reflexivity|exact Hv2].
Qed.

(** ** Doubling an operand *)

Lemma exp_inb_true (lo hi : Z) (x : spec_float) :
  exp_inb lo hi x = true -> exp_in lo hi x.
Proof.
  destruct x as [s|s| |s m e]; cbn; try (intros; exact I).
  intros H. apply andb_true_iff in H as [H1 H2]. lia.
Qed.

Lemma round_core_bounds_gen (m : Z) (l : location) (K : Z) :
  0 <= m < 2 ^ K -> 53 <= K ->
  0 <= (round_core m l).1 /\ 0 <= (round_core m l).2 <= 2 * K - 105.
Proof.
  intros Hm HK. unfold round_core. cbn [fst snd].
  set (r1 := (shr (shr_record_of_loc m l) 0 (Zdigits2 m - 53)).1).
  set (m2 := round_nearest_even (shr_m r1) (loc_of_shr_record r1)).
  assert (0 <= shr_m r1 <= m) as Hr1.
  { apply shr_bounds. rewrite shr_record_of_loc_m. lia. }
  pose proof (round_nearest_even_bounds (shr_m r1) (loc_of_shr_record r1)) as Hm2.
  fold m2 in Hm2.
  assert (Zdigits2 m <= K) as Hd1 by (apply Zdigits2_upper; lia).
  assert (Zdigits2 m2 <= K + 1) as Hd2.
  { apply Zdigits2_upper; try lia.
    replace (K + 1) with (Z.succ K) by lia. rewrite Z.pow_succ_r by lia. lia. }
  split; [|lia].
  apply (shr_bounds _ _ _ m2). rewrite shr_record_of_loc_m. lia.
Qed.

Lemma digits2_pos_lt (p : positive) : Zpos p < 2 ^ Zpos (digits2_pos p).
Proof.
  induction p as [p IH|p IH|].
  - change (Zpos (digits2_pos p~1)) with (Zpos (Pos.succ (digits2_pos p))).
    rewrite Pos2Z.inj_succ, Z.pow_succ_r by lia. lia.
  - change (Zpos (digits2_pos p~0)) with (Zpos (Pos.succ (digits2_pos p))).
    rewrite Pos2Z.inj_succ, Z.pow_succ_r by lia. lia.
  - cbn. lia.
Qed.

Lemma valid_mantissa_lt (s : bool) (m : positive) (e : Z) :
  valid_binary (S754_finite s m e) = true -> Zpos m < 2 ^ 53.
Proof.
  cbn. unfold bounded, canonical_mantissa, fexp, SpecFloat.emin, emax, prec.
  intros H. apply andb_true_iff in H as [H1 _]. apply Z.eqb_eq in H1.
  assert (Zpos (digits2_pos m) <= 53) as Hd by lia.
  pose proof (digits2_pos_lt m) as Hl.
  apply (Z.lt_le_trans _ _ _ Hl). apply Z.pow_le_mono_r; lia.
Qed.

Lemma SFmul_finite_linear (sx sy : bool) (mx my : positive) (ex ey : Z) :
  -1021 <= ex + ey ->
  SF64mul (S754_finite sx mx ex) (S754_finite sy my ey)
  = let c := round_core (Zpos (mx * my)) loc_Exact in
    match c.1 with
    | Z0 => S754_zero (xorb sx sy)
    | Zpos p =>
        if ex + ey + c.2 <=? 971
        then S754_finite (xorb sx sy) p (ex + ey + c.2)
        else S754_infinity (xorb sx sy)
    | Zneg _ => S754_nan
    end.
Proof.
  intros H. unfold SF64mul, SFmul. rewrite binary_round_aux_linear by exact H. reflexivity.
Qed.

Lemma mul_mantissas_lt (mx my : positive) :
  Zpos mx < 2 ^ 53 -> Zpos my < 2 ^ 53 -> 0 <= Zpos (mx * my) < 2 ^ 106.
Proof.
  intros Hx Hy. rewrite Pos2Z.inj_mul. change (2 ^ 106) with (2 ^ 53 * 2 ^ 53). nia.
Qed.

(** The exponent of a product of two finite doubles. *)
Lemma SFmul_exp (x y : spec_float) (a b c d : Z) :
  valid_binary x = true -> valid_binary y = true ->
  exp_in a b x -> exp_in c d y -> -1021 <= a + c ->
  exp_in (a + c) (b + d + 107) (SF64mul x y).
Proof.
  intros Vx Vy Hx Hy Hlo.
  destruct x as [sx|sx| |sx mx ex], y as [sy|sy| |sy my ey]; try exact I.
  cbn [exp_in] in Hx, Hy.
  rewrite SFmul_finite_linear by lia. cbn zeta.
  pose proof (mul_mantissas_lt mx my (valid_mantissa_lt _ _ _ Vx) (valid_mantissa_lt _ _ _ Vy)) as HM.
  destruct (round_core_bounds_gen _ loc_Exact 106 HM ltac:(lia)) as [H1 H2].
  destruct (round_core (Zpos (mx * my)) loc_Exact).1 as [|p|p]; try exact I.
  destruct (_ <=? 971); [|exact I]. cbn [exp_in]. lia.
Qed.

(** Doubling the left factor doubles the product, when the product of the
    two is far from overflow and from the subnormal range. *)
Lemma SFmul_shift1_l (x y : spec_float) (a b c d : Z) :
  valid_binary x = true -> valid_binary y = true ->
  exp_in a b x -> exp_in c d y -> -1021 <= a + c -> b + d + 108 <= 971 ->
  SF64mul (SFshift1 x) y = SFshift1 (SF64mul x y).
Proof.
  intros Vx Vy Hx Hy Hlo Hhi.
  destruct x as [sx|sx| |sx mx ex], y as [sy|sy| |sy my ey]; try reflexivity.
  cbn [exp_in SFshift1] in *.
  rewrite !SFmul_finite_linear by lia. cbn zeta.
  pose proof (mul_mantissas_lt mx my (valid_mantissa_lt _ _ _ Vx) (valid_mantissa_lt _ _ _ Vy)) as HM.
  destruct (round_core_bounds_gen _ loc_Exact 106 HM ltac:(lia)) as [H1 H2].
  destruct (round_core (Zpos (mx * my)) loc_Exact).1 as [|p|p]; try reflexivity.
  set (k := (round_core (Zpos (mx * my)) loc_Exact).2) in *.
  destruct (Z.leb_spec (ex + 1 + ey + k) 971); [|lia].
  destruct (Z.leb_spec (ex + ey + k) 971); [|lia].
  cbn [SFshift1]. f_equal. lia.
Qed.

Lemma SFmul_comm (x y : spec_float) : SF64mul x y = SF64mul y x.
Proof.
  unfold SF64mul, SFmul.
  destruct x as [sx|sx| |sx mx ex], y as [sy|sy| |sy my ey]; try reflexivity;
    try (rewrite xorb_comm; reflexivity).
  rewrite xorb_comm, Pos.mul_comm, Z.add_comm. reflexivity.
Qed.

Lemma SFmul_shift1_r (x y : spec_float) (a b c d : Z) :
  valid_binary x = true -> valid_binary y = true ->
  exp_in a b x -> exp_in c d y -> -1021 <= a + c -> b + d + 108 <= 971 ->
  SF64mul x (SFshift1 y) = SFshift1 (SF64mul x y).
Proof.
  intros Vx Vy Hx Hy Hlo Hhi.
  rewrite (SFmul_comm x (SFshift1 y)), (SFmul_comm x y).
  apply (SFmul_shift1_l y x c d a b); try assumption; lia.
Qed.

(** [2.0 * x] is [x] with its exponent moved, whenever that is a double. *)
Lemma SFmul_two_shift1 (x : spec_float) :
  valid_binary (SFshift1 x) = true ->
  SF64mul (S754_finite false 4503599627370496 (-51)) x = SFshift1 x.
Proof.
  intros V. destruct x as [s|s| |s m e]; try reflexivity.
  cbn [SFshift1] in *. apply SFmul_two_l. exact V.
Qed.

Lemma binary_round_aux_canonical (s : bool) (m : positive) (e : Z) :
  canonical_mantissa prec emax m e = true -> e <= 971 ->
  binary_round_aux prec emax s (Zpos m) e loc_Exact = S754_finite s m e.
Proof.
  intros Hc He. unfold binary_round_aux.
  rewrite shr_fexp_canonical by exact Hc.
  cbn [loc_of_shr_record shr_m round_nearest_even].
  rewrite shr_fexp_canonical by exact Hc. cbn [shr_m].
  destruct (Z.leb_spec e (emax - prec)) as [|Hgt]; [reflexivity|].
  unfold emax, prec in Hgt. lia.
Qed.

Lemma digits2_pos_Pos_iter_xO (p q : positive) :
  Zpos (digits2_pos (Pos.iter xO p q)) = Zpos (digits2_pos p) + Zpos q.
Proof.
  induction q as [|q IH] using Pos.peano_ind.
  - cbn [Pos.iter]. rewrite digits2_pos_xO. reflexivity.
  - rewrite Pos.iter_succ, digits2_pos_xO, IH. lia.
Qed.

(** Converting a positive integer below [2^52] to [double]: the integer
    shifted up to 53 bits, with the exponent that undoes the shift. *)
Lemma binary_round_small (p : positive) :
  Zpos (digits2_pos p) < 53 ->
  binary_round prec emax false p 0
  = S754_finite false (Pos.iter xO p (Z.to_pos (53 - Zpos (digits2_pos p))))
      (Zpos (digits2_pos p) - 53).
Proof.
  intros Hd. unfold binary_round. rewrite Z.add_0_r, fexp_linear by lia.
  unfold shl_align.
  destruct (Zpos (digits2_pos p) - 53 - 0) as [|q|q] eqn:E; try lia.
  assert (Z.to_pos (53 - Zpos (digits2_pos p)) = q) as ->.
  { replace (53 - Zpos (digits2_pos p)) with (Zpos q) by lia. reflexivity. }
  apply binary_round_aux_canonical; [|lia].
  unfold canonical_mantissa. rewrite digits2_pos_Pos_iter_xO, fexp_linear by lia.
  apply Z.eqb_eq. lia.
Qed.

Lemma Prim2SF_u32_to_double (n : Z) :
  1 <= n < 2 ^ 32 ->
  exists p : positive,
    n = Zpos p /\ Zpos (digits2_pos p) <= 32
    /\ Prim2SF (u32_to_double n)
       = S754_finite false (Pos.iter xO p (Z.to_pos (53 - Zpos (digits2_pos p))))
           (Zpos (digits2_pos p) - 53).
Proof.
  intros Hn. destruct n as [|p|p]; try lia. exists p.
  assert (Zpos (digits2_pos p) <= 32) as Hd by (apply digits2_pos_upper; lia).
  split; [reflexivity|]. split; [exact Hd|].
  unfold u32_to_double, u32. rewrite Z.mod_small by lia.
  rewrite of_uint63_spec, Uint63.of_Z_spec, Z.mod_small
    by (change wB with 9223372036854775808; lia).
  cbn [binary_normalize]. apply binary_round_small. lia.
Qed.

(** The [double] of twice a swept size is the [double] of the size with its
    exponent moved. *)
Lemma Prim2SF_u32_twice (n : Z) :
  1 <= n -> 2 * n < 2 ^ 32 ->
  Prim2SF (u32_to_double (2 * n)) = SFshift1 (Prim2SF (u32_to_double n))
  /\ exp_in (-52) (-21) (Prim2SF (u32_to_double n)).
Proof.
  intros H1 H2.
  destruct (Prim2SF_u32_to_double n ltac:(lia)) as (p & -> & Hd & ->).
  destruct (Prim2SF_u32_to_double (2 * Zpos p) ltac:(lia)) as (p2 & Hp2 & Hd2 & ->).
  assert (p2 = p~0)%positive as -> by lia.
  cbn [SFshift1 exp_in]. split; [|pose proof (Pos2Z.is_pos (digits2_pos p)); lia].
  assert (Zpos (digits2_pos p~0) = Zpos (digits2_pos p) + 1) as Hx by apply digits2_pos_xO.
  rewrite Hx. f_equal; [|lia].
  replace (53 - Zpos (digits2_pos p)) with (Z.succ (53 - (Zpos (digits2_pos p) + 1))) by lia.
  rewrite Z2Pos.inj_succ by lia.
  rewrite Pos.iter_succ, <- Pos.iter_swap. reflexivity.
Qed.

Lemma float_between (x : float) (m0 m1 : positive) (e0 e1 : Z) :
  SFleb (S754_finite false m0 e0) (Prim2SF x) = true ->
  SFleb (Prim2SF x) (S754_finite false m1 e1) = true ->
  -1074 < e0 ->
  exists (m : positive) (e : Z),
    Prim2SF x = S754_finite false m e /\ Zpos (digits2_pos m) = 53 /\ e0 <= e <= e1.
Proof.
  intros Hlo Hhi He0. pose proof (Prim2SF_valid x) as Hv.
  apply SFleb_lower in Hlo as [Hinf|(m & e & Hx & He)].
  { rewrite Hinf in Hhi. discriminate. }
  rewrite Hx in *. apply SFleb_upper in Hhi.
  destruct (valid_normal _ _ _ Hv ltac:(lia)) as [Hd _].
  exists m, e. repeat split; try assumption; lia.
Qed.

(** [2 / (x / 2)] on the representation, with the exponent of [2 / x]. *)
Lemma SFdiv_two_half (m : positive) (e : Z) :
  Zpos (digits2_pos m) = 53 -> -1070 <= e <= 917 ->
  SF64div (S754_finite false 4503599627370496 (-51))
    (SF64div (S754_finite false m e) (S754_finite false 4503599627370496 (-51)))
  = SFshift1 (SF64div (S754_finite false 4503599627370496 (-51)) (S754_finite false m e))
  /\ exp_in (-104 - e) (-101 - e)
       (SF64div (S754_finite false 4503599627370496 (-51)) (S754_finite false m e)).
Proof.
  intros Hd He.
  rewrite SFdiv_by_two by (try exact Hd; lia).
  rewrite !SFdiv_two by (try exact Hd; lia). cbn zeta.
  pose proof (digits2_pos_lower m) as Hlow. rewrite Hd in Hlow.
  change (2 ^ (53 - 1)) with 4503599627370496 in Hlow.
  assert (0 <= 2 ^ 105 / Zpos m < 2 ^ 54) as Hq.
  { split; [apply Z.div_pos; lia|].
    apply Z.div_lt_upper_bound; [lia|].
    change (2 ^ 105) with (4503599627370496 * 2 ^ 53).
    change (2 ^ 54) with (2 * 2 ^ 53). nia. }
  destruct (round_core_bounds _ (new_location (Zpos m) (2 ^ 105 mod Zpos m)) Hq) as [H1 H2].
  destruct (round_core _ _).1 as [|p|p]; cbn [SFshift1 exp_in]; try (split; [reflexivity|exact I]).
  split; [f_equal; lia|lia].
Qed.

(** The product with a constant [f] of exponent [-53] or [-52] (the
    strategy factors), for [2 / (x / 2)] against [2 / x]. *)
Lemma two_div_half_times (x f : float) :
  (0x1p-900 <=? x)%float = true -> (x <=? 0x1p+900)%float = true ->
  exp_in (-53) (-52) (Prim2SF f) ->
  (2 / (x / 2) * f = 2 * (2 / x * f))%float.
Proof.
  intros Hlo Hhi Hf. rewrite leb_spec in Hlo, Hhi.
  change (Prim2SF 0x1p-900) with (S754_finite false 4503599627370496 (-952)) in Hlo.
  change (Prim2SF 0x1p+900) with (S754_finite false 4503599627370496 848) in Hhi.
  destruct (float_between x _ _ _ _ Hlo Hhi ltac:(lia)) as (m & e & Hx & Hd & He).
  apply Prim2SF_inj.
  pose proof (Prim2SF_valid (2 / (x / 2) * f)) as Vl.
  pose proof (Prim2SF_valid (2 / x)) as Va.
  pose proof (Prim2SF_valid f) as Vf.
  rewrite !mul_spec, !div_spec in *. rewrite Hx in *.
  change (Prim2SF 2) with (S754_finite false 4503599627370496 (-51)) in *.
  destruct (SFdiv_two_half m e Hd ltac:(lia)) as [Hs Ha].
  rewrite Hs in *.
  rewrite (SFmul_shift1_l _ _ (-104 - e) (-101 - e) (-53) (-52)) in *
    by (try assumption; lia).
  rewrite SFmul_two_shift1 by exact Vl. reflexivity.
Qed.

Lemma leb_weaken_lower (x : float) :
  (0x1p-900 <=? x)%float = true -> (0x1p-1000 <=? x)%float = true.
Proof.
  rewrite !leb_spec.
  change (Prim2SF 0x1p-900) with (S754_finite false 4503599627370496 (-952)).
  change (Prim2SF 0x1p-1000) with (S754_finite false 4503599627370496 (-1052)).
  intros H. apply SFleb_lower in H as [->|(m & e & -> & He)]; [reflexivity|].
  assert ((-1052 ?= e) = Lt) as E by (apply Z.compare_lt_iff; lia).
  unfold SFleb, SFcompare. rewrite E. reflexivity.
Qed.

(** [0.4 * n * f] at twice a swept size, for a constant [f] of exponent
    [-53] or [-52]. *)
Lemma energy_twice_times (n : Z) (f : float) :
  1 <= n -> 2 * n < 2 ^ 32 -> exp_in (-53) (-52) (Prim2SF f) ->
  (0.4 * u32_to_double (2 * n) * f = 2 * (0.4 * u32_to_double n * f))%float
  /\ (0.4 * u32_to_double (2 * n) = 2 * (0.4 * u32_to_double n))%float.
Proof.
  intros H1 H2 Hf.
  destruct (Prim2SF_u32_twice n H1 H2) as [Hs Hd].
  pose proof (Prim2SF_valid (u32_to_double n)) as Vd.
  pose proof (Prim2SF_valid 0.4) as Vc.
  pose proof (Prim2SF_valid f) as Vf.
  pose proof (Prim2SF_valid (0.4 * u32_to_double n)) as Vy.
  assert (exp_in (-54) (-54) (Prim2SF 0.4)) as Hc
    by (apply exp_inb_true; vm_compute; reflexivity).
  assert (Prim2SF (0.4 * u32_to_double (2 * n))
          = SFshift1 (Prim2SF (0.4 * u32_to_double n))) as Hy.
  { rewrite !mul_spec, Hs.
    apply (SFmul_shift1_r _ _ (-54) (-54) (-52) (-21)); try assumption; lia. }
  assert (exp_in (-106) 32 (Prim2SF (0.4 * u32_to_double n))) as Hey.
  { rewrite mul_spec.
    apply (SFmul_exp _ _ (-54) (-54) (-52) (-21)); try assumption; lia. }
  split.
  - apply Prim2SF_inj.
    pose proof (Prim2SF_valid (0.4 * u32_to_double (2 * n) * f)) as Vl.
    rewrite (mul_spec _ f) in *. rewrite Hy in *.
    rewrite (SFmul_shift1_l _ _ (-106) 32 (-53) (-52)) in * by (try assumption; lia).
    rewrite (mul_spec 2), (mul_spec _ f).
    change (Prim2SF 2) with (S754_finite false 4503599627370496 (-51)).
    rewrite SFmul_two_shift1 by exact Vl. reflexivity.
  - apply Prim2SF_inj.
    pose proof (Prim2SF_valid (0.4 * u32_to_double (2 * n))) as Vl.
    rewrite Hy in *. rewrite (mul_spec 2).
    change (Prim2SF 2) with (S754_finite false 4503599627370496 (-51)).
    rewrite SFmul_two_shift1 by exact Vl. reflexivity.
Qed.

(** ** Signs *)

Lemma shr_fexp_nonneg (m e : Z) (l : location) :
  0 <= m -> 0 <= shr_m (shr_fexp prec emax m e l).1.
Proof.
  intros Hm. unfold shr_fexp.
  apply (shr_bounds _ _ _ m). rewrite shr_record_of_loc_m. lia.
Qed.

Lemma binary_round_aux_sign (s : bool) (m e : Z) (l : location) :
  0 <= m -> has_sign s (binary_round_aux prec emax s m e l).
Proof.
  intros Hm. unfold binary_round_aux.
  pose proof (shr_fexp_nonneg m e l Hm) as H1.
  destruct (shr_fexp prec emax m e l) as [r1 e1]. cbn [fst] in H1.
  pose proof (round_nearest_even_bounds (shr_m r1) (loc_of_shr_record r1)) as H2.
  pose proof (shr_fexp_nonneg (round_nearest_even (shr_m r1) (loc_of_shr_record r1))
                e1 loc_Exact ltac:(lia)) as H3.
  destruct (shr_fexp prec emax _ e1 loc_Exact) as [r2 e2]. cbn [fst] in H3.
  destruct (shr_m r2) as [|p|p]; [reflexivity| |lia].
  destruct (e2 <=? emax - prec); reflexivity.
Qed.

Lemma SFdiv_sign (sx sy : bool) (mx my : positive) (ex ey : Z) :
  has_sign (xorb sx sy) (SF64div (S754_finite sx mx ex) (S754_finite sy my ey)).
Proof.
  unfold SF64div, SFdiv, SFdiv_core_binary.
  rewrite div_eucl_div_mod.
  apply binary_round_aux_sign.
  apply Z.div_pos; [|lia].
  destruct (_ - _ - _) as [|p|p]; [lia| |lia].
  apply Z.shiftl_nonneg. lia.
Qed.

Lemma SFmul_sign (s : bool) (x : spec_float) (mf : positive) (ef : Z) :
  has_sign s x -> has_sign s (SF64mul x (S754_finite false mf ef)).
Proof.
  destruct x as [s'|s'| |s' m e]; cbn [has_sign].
  - intros <-. apply xorb_false_r.
  - intros <-. apply xorb_false_r.
  - intros [].
  - intros <-. unfold SF64mul, SFmul. rewrite xorb_false_r.
    apply binary_round_aux_sign. lia.
Qed.

Lemma ltb_zero_sign (x : float) :
  (x <? 0)%float = true ->
  Prim2SF x = S754_infinity true \/ exists m e, Prim2SF x = S754_finite true m e.
Proof.
  rewrite ltb_spec. change (Prim2SF 0) with (S754_zero false).
  destruct (Prim2SF x) as [s|s| |s m e]; unfold SFltb; cbn; try discriminate;
    destruct s; try discriminate; intros _; [left; reflexivity|right; eauto].
Qed.

Lemma has_sign_true_leb (x : float) :
  has_sign true (Prim2SF x) -> (x <=? 0)%float = true.
Proof.
  rewrite leb_spec. change (Prim2SF 0) with (S754_zero false).
  destruct (Prim2SF x) as [s|s| |s m e]; cbn [has_sign];
    [intros ->; reflexivity|intros ->; reflexivity|intros []|intros ->; reflexivity].
Qed.

Lemma zero_ltb_sign (x : float) :
  (0 <? x)%float = true ->
  Prim2SF x = S754_infinity false \/ exists m e, Prim2SF x = S754_finite false m e.
Proof.
  rewrite ltb_spec. change (Prim2SF 0) with (S754_zero false).
  destruct (Prim2SF x) as [s|s| |s m e]; unfold SFltb; cbn; try discriminate;
    destruct s; try discriminate; intros _; [left; reflexivity|right; eauto].
Qed.

Lemma has_sign_false_leb (x : float) :
  has_sign false (Prim2SF x) -> (0 <=? x)%float = true.
Proof.
  rewrite leb_spec. change (Prim2SF 0) with (S754_zero false).
  destruct (Prim2SF x) as [s|s| |s m e]; cbn [has_sign];
    [intros ->; reflexivity|intros ->; reflexivity|intros []|intros ->; reflexivity].
Qed.

(** The sign of [2 / eps] and of its product with a positive constant. *)
Lemma budget_sign_loss (eps f : float) (mf : positive) (ef : Z) :
  Prim2SF f = S754_finite false mf ef ->
  ((eps <? 0)%float = true ->
   (2 / eps <=? 0)%float = true /\ (2 / eps * f <=? 0)%float = true)
  /\ ((0 <? eps)%float = true ->
      (0 <=? 2 / eps)%float = true /\ (0 <=? 2 / eps * f)%float = true).
Proof.
  intros Hf. split; intros He.
  - assert (has_sign true (Prim2SF (2 / eps))) as Hs.
    { rewrite div_spec. change (Prim2SF 2) with (S754_finite false 4503599627370496 (-51)).
      destruct (ltb_zero_sign eps He) as [->|(m & e & ->)]; [reflexivity|].
      apply (SFdiv_sign false true). }
    split; apply has_sign_true_leb; [exact Hs|].
    rewrite mul_spec, Hf. apply SFmul_sign. exact Hs.
  - assert (has_sign false (Prim2SF (2 / eps))) as Hs.
    { rewrite div_spec. change (Prim2SF 2) with (S754_finite false 4503599627370496 (-51)).
      destruct (zero_ltb_sign eps He) as [->|(m & e & ->)]; [reflexivity|].
      apply (SFdiv_sign false false). }
    split; apply has_sign_false_leb; [exact Hs|].
    rewrite mul_spec, Hf. apply SFmul_sign. exact Hs.
Qed.

(** ** Ordering of doubles, and the latency model *)

Lemma SFltb_trans (x y z : spec_float) :
  SFltb x y = true -> SFltb y z = true -> SFltb x z = true.
Proof.
  unfold SFltb.
  destruct x as [sx|sx| |sx mx ex], y as [sy|sy| |sy my ey], z as [sz|sz| |sz mz ez];
    cbn; try discriminate; try reflexivity;
    destruct sx, sy, sz; cbn; try discriminate; try reflexivity;
    change (PosDef.Pos.compare_cont Eq) with Pos.compare;
    destruct (Z.compare_spec ex ey), (Z.compare_spec ey ez), (Z.compare_spec ex ez);
    try discriminate; try reflexivity; try lia; subst;
    destruct (Pos.compare_spec mx my), (Pos.compare_spec my mz), (Pos.compare_spec mx mz);
    cbn; try discriminate; try reflexivity; try lia.
Qed.

Lemma ltb_trans (x y z : float) :
  (x <? y)%float = true -> (y <? z)%float = true -> (x <? z)%float = true.
Proof. rewrite !ltb_spec. apply SFltb_trans. Qed.

(** *** Rounding to nearest, exactly

    What the shifts of [binary_round_aux] keep and drop. *)

Ltac split_comparisons :=
  repeat match goal with
         | |- context [?a <=? ?b] => destruct (Z.leb_spec a b)
         | |- context [?a =? ?b] => destruct (Z.eqb_spec a b)
         | H : context [?a <=? ?b] |- _ => destruct (Z.leb_spec a b)
         | H : context [?a =? ?b] |- _ => destruct (Z.eqb_spec a b)
         end.

Lemma shr_1_spec (m : Z) (r s : bool) :
  0 <= m ->
  shr_1 {| shr_m := m; shr_r := r; shr_s := s |}
  = {| shr_m := Z.div2 m; shr_r := Z.odd m; shr_s := r || s |}.
Proof. destruct m as [|[p|p|]|p]; intros; try lia; reflexivity. Qed.

Lemma shifted_init (m0 : Z) :
  0 <= m0 -> shifted m0 0 {| shr_m := m0; shr_r := false; shr_s := false |}.
Proof. intros H. exists 0. cbn. repeat split; lia. Qed.

Lemma shifted_step (m0 t : Z) (x : shr_record) :
  0 <= t -> shifted m0 t x -> shifted m0 (t + 1) (shr_1 x).
Proof.
  intros Ht (rho & Hm & Hr & Hx & Hrb & Hsb). destruct x as [m r s].
  cbn [shr_m shr_r shr_s] in *. rewrite shr_1_spec by exact Hx.
  pose proof (Z.div2_odd m) as Hd.
  assert (0 <= Z.div2 m) as Hd0 by (apply Z.div2_nonneg; exact Hx).
  exists (rho + 2 ^ t * Z.b2z (Z.odd m)). cbn [shr_m shr_r shr_s].
  replace (2 ^ (t + 1)) with (2 * 2 ^ t) by (rewrite Z.pow_add_r by lia; lia).
  assert (0 < 2 ^ t) as HP by (apply Z.pow_pos_nonneg; lia).
  set (P := 2 ^ t) in *. subst r s.
  destruct (Z.odd m); cbn [Z.b2z] in *;
    (split; [nia|]); (split; [lia|]); (split; [lia|]);
    split; split_comparisons; cbn; try reflexivity; try lia.
Qed.

Lemma shifted_iter (m0 : Z) (n : positive) :
  forall (t : Z) (x : shr_record),
    0 <= t -> shifted m0 t x -> shifted m0 (t + Zpos n) (SpecFloat.iter_pos shr_1 n x).
Proof.
  induction n as [n IH|n IH|]; intros t x Ht Hx; cbn [SpecFloat.iter_pos].
  - replace (t + Zpos n~1) with (t + 1 + Zpos n + Zpos n) by lia.
    apply IH; [lia|]. apply IH; [lia|]. apply shifted_step; assumption.
  - replace (t + Zpos n~0) with (t + Zpos n + Zpos n) by lia.
    apply IH; [lia|]. apply IH; assumption.
  - apply shifted_step; assumption.
Qed.

Lemma shifted_round (m0 t : Z) (x : shr_record) :
  0 <= t -> shifted m0 t x ->
  - 2 ^ t <= 2 * (round_nearest_even (shr_m x) (loc_of_shr_record x) * 2 ^ t - m0) <= 2 ^ t.
Proof.
  intros Ht (rho & Hm & Hr & Hx & Hrb & Hsb). destruct x as [m r s].
  cbn [shr_m shr_r shr_s] in *.
  assert (0 < 2 ^ t) as HP by (apply Z.pow_pos_nonneg; lia).
  set (P := 2 ^ t) in *.
  destruct r, s; cbn [loc_of_shr_record round_nearest_even];
    try destruct (Z.even m); split_comparisons; cbn in *; try discriminate; nia.
Qed.

Lemma Zdigits2_eq (z k : Z) : 0 < k -> 2 ^ (k - 1) <= z < 2 ^ k -> Zdigits2 z = k.
Proof.
  intros Hk [Hl Hu].
  assert (0 < 2 ^ (k - 1)) by (apply Z.pow_pos_nonneg; lia).
  destruct z as [|p|p]; try lia. cbn [Zdigits2].
  pose proof (digits2_pos_upper p k Hu).
  pose proof (digits2_pos_lt p) as Hlt.
  destruct (Z.lt_ge_cases (Zpos (digits2_pos p)) k) as [Hc|Hc]; [|lia].
  assert (2 ^ Zpos (digits2_pos p) <= 2 ^ (k - 1)) by (apply Z.pow_le_mono_r; lia).
  lia.
Qed.

(** Rounding an integer of [53 + t] bits to 53 bits, away from the carry. *)
Lemma round_core_exact (m t : Z) :
  0 < t -> 2 ^ (52 + t) + 2 ^ t <= m -> m + 2 ^ t <= 2 ^ (53 + t) ->
  exists M : Z,
    round_core m loc_Exact = (M, t) /\ 2 ^ 52 <= M < 2 ^ 53
    /\ - 2 ^ t <= 2 * (M * 2 ^ t - m) <= 2 ^ t.
Proof.
  intros Ht Hl Hu.
  assert (0 < 2 ^ t) as HP by (apply Z.pow_pos_nonneg; lia).
  assert (2 ^ (52 + t) = 2 ^ 52 * 2 ^ t) as E52 by (apply Z.pow_add_r; lia).
  assert (2 ^ (53 + t) = 2 ^ 53 * 2 ^ t) as E53 by (apply Z.pow_add_r; lia).
  assert (Zdigits2 m = 53 + t) as Hd.
  { apply Zdigits2_eq; [lia|]. replace (53 + t - 1) with (52 + t) by lia. lia. }
  unfold round_core. rewrite Hd. replace (53 + t - 53) with t by lia.
  cbn [shr_record_of_loc].
  destruct t as [|p|p]; try lia. cbn [shr fst].
  pose proof (shifted_iter m p 0 _ ltac:(lia) (shifted_init m ltac:(lia))) as Hs.
  cbn [Z.add] in Hs.
  pose proof (shifted_round m (Zpos p) _ ltac:(lia) Hs) as Hr.
  set (m2 := round_nearest_even _ _) in *.
  set (P := 2 ^ Zpos p) in *.
  assert (2 ^ 52 <= m2 < 2 ^ 53) as Hm2 by nia.
  assert (Zdigits2 m2 = 53) as Hd2 by (apply Zdigits2_eq; [lia|exact Hm2]).
  rewrite Hd2. cbn [Z.sub Z.add Z.pos_sub Z.max shr fst shr_m shr_record_of_loc].
  exists m2. split; [f_equal; lia|]. split; [exact Hm2|exact Hr].
Qed.

Lemma shr_m_shr_1 (x : shr_record) : 0 <= shr_m x -> shr_m (shr_1 x) = Z.div2 (shr_m x).
Proof. destruct x as [m r s]. cbn [shr_m]. intros H. rewrite shr_1_spec by exact H. reflexivity. Qed.

(** The second shift of [round_core]: one place when the rounding carried
    to [2^53], none otherwise. *)
Lemma round_core_carry (m2 : Z) :
  2 ^ 52 <= m2 <= 2 ^ 53 ->
  exists M k : Z,
    shr_m (shr (shr_record_of_loc m2 loc_Exact) 0 (Zdigits2 m2 - 53)).1 = M
    /\ Z.max 0 (Zdigits2 m2 - 53) = k
    /\ 0 <= k <= 1 /\ 0 < M /\ M * 2 ^ k = m2.
Proof.
  intros H. destruct (Z.eq_dec m2 (2 ^ 53)) as [->|Hne].
  - exists (2 ^ 52), 1. repeat split; try reflexivity; lia.
  - assert (Zdigits2 m2 = 53) as -> by (apply Zdigits2_eq; lia).
    exists m2, 0. cbn. repeat split; lia.
Qed.

(** Rounding a quotient of 53 or 54 bits, whatever was dropped below it. *)
Lemma round_core_54 (Q : Z) (l : location) :
  2 ^ 52 <= Q < 2 ^ 54 ->
  exists M k : Z,
    round_core Q l = (M, k) /\ 0 <= k <= 2 /\ 0 < M /\ Q - 4 <= M * 2 ^ k <= Q + 2.
Proof.
  intros HQ. unfold round_core.
  destruct (Z.lt_ge_cases Q (2 ^ 53)) as [Hlt|Hge].
  - assert (Zdigits2 Q = 53) as -> by (apply Zdigits2_eq; lia).
    change (53 - 53) with 0. cbn [shr fst].
    rewrite shr_record_of_loc_m.
    pose proof (round_nearest_even_bounds Q (loc_of_shr_record (shr_record_of_loc Q l))) as Hr.
    set (m2 := round_nearest_even _ _) in *.
    destruct (round_core_carry m2 ltac:(lia)) as (M & k & -> & -> & Hk & HM & HMk).
    exists M, k. split; [reflexivity|]. split; [lia|]. split; [exact HM|]. lia.
  - assert (Zdigits2 Q = 54) as -> by (apply Zdigits2_eq; lia).
    change (54 - 53) with 1. cbn [shr fst SpecFloat.iter_pos].
    rewrite shr_m_shr_1 by (rewrite shr_record_of_loc_m; lia).
    rewrite shr_record_of_loc_m.
    pose proof (Z.div2_odd Q) as Hd.
    assert (0 <= Z.b2z (Z.odd Q) <= 1) as Hb by (destruct (Z.odd Q); cbn; lia).
    pose proof (round_nearest_even_bounds (Z.div2 Q)
                  (loc_of_shr_record (shr_1 (shr_record_of_loc Q l)))) as Hr.
    set (m2 := round_nearest_even _ _) in *.
    destruct (round_core_carry m2 ltac:(lia)) as (M & k & -> & -> & Hk & HM & HMk).
    exists M, (1 + k). split; [reflexivity|]. split; [lia|]. split; [exact HM|].
    rewrite Z.pow_add_r by lia. change (2 ^ 1) with 2. lia.
Qed.

Lemma Zpos_iter_xO (p q : positive) : Zpos (Pos.iter xO p q) = Zpos p * 2 ^ Zpos q.
Proof.
  induction q as [|q IH] using Pos.peano_ind.
  - cbn [Pos.iter]. lia.
  - rewrite Pos.iter_succ, Pos2Z.inj_xO, IH, Pos2Z.inj_succ, Z.pow_succ_r by lia. lia.
Qed.

(** [200.0 / y] for a normal [y] with exponent between -32 and -21. *)
Lemma SFdiv_200 (m : positive) (e : Z) :
  Zpos (digits2_pos m) = 53 -> -32 <= e <= -21 ->
  SF64div (S754_finite false 7036874417766400 (-45)) (S754_finite false m e)
  = let c := round_core (25 * 2 ^ 101 / Zpos m)
               (new_location (Zpos m) (25 * 2 ^ 101 mod Zpos m)) in
    match c.1 with
    | Z0 => S754_zero false
    | Zpos p => S754_finite false p (-98 - e + c.2)
    | Zneg _ => S754_nan
    end.
Proof.
  intros Hd He.
  unfold SF64div, SFdiv, SFdiv_core_binary.
  change (Zdigits2 (Zpos 7036874417766400)) with 53.
  unfold Zdigits2. rewrite Hd.
  rewrite fexp_linear by lia.
  replace (Z.min (53 + -45 - (53 + e) - 53) (-45 - e)) with (-98 - e) by lia.
  replace (-45 - e - (-98 - e)) with 53 by lia.
  change (Z.shiftl (Zpos 7036874417766400) 53) with (25 * 2 ^ 101).
  pose proof (digits2_pos_lower m) as Hlow. rewrite Hd in Hlow.
  change (2 ^ (53 - 1)) with 4503599627370496 in Hlow.
  rewrite div_eucl_div_mod.
  rewrite binary_round_aux_linear by lia.
  cbn zeta.
  assert (0 <= 25 * 2 ^ 101 / Zpos m < 2 ^ 54) as Hq.
  { split; [apply Z.div_pos; lia|].
    apply Z.div_lt_upper_bound; [lia|].
    change (25 * 2 ^ 101) with (7036874417766400 * 2 ^ 53).
    change (2 ^ 54) with (2 * 2 ^ 53). nia. }
  destruct (round_core_bounds _ (new_location (Zpos m) (25 * 2 ^ 101 mod Zpos m)) Hq)
    as [H1 H2].
  destruct (round_core _ _).1 as [|p|p]; try reflexivity.
  destruct (Z.leb_spec (-98 - e + (round_core (25 * 2 ^ 101 / Zpos m)
             (new_location (Zpos m) (25 * 2 ^ 101 mod Zpos m))).2) 971);
    [reflexivity|lia].
Qed.

(** [200.0 / n] for a swept size of 21 to 32 bits: the quotient [q], as
    [U = q * 2^77], is within [5 * 2^32 / n] of [200 * 2^77 / n]. *)
Lemma quotient_200 (n : Z) :
  2 ^ 20 <= n < 2 ^ 32 ->
  exists (Mq : positive) (eq : Z),
    Prim2SF (200 / u32_to_double n) = S754_finite false Mq eq
    /\ Zpos (digits2_pos Mq) = 53 /\ -77 <= eq <= -64
    /\ 25 * 2 ^ 80 - 5 * 2 ^ 32 <= Zpos Mq * 2 ^ (eq + 77) * n <= 25 * 2 ^ 80 + 2 * 2 ^ 32.
Proof.
  intros Hn.
  destruct (Prim2SF_u32_to_double n ltac:(lia)) as (p & -> & Hd32 & Hp).
  set (d := Zpos (digits2_pos p)) in *.
  pose proof (digits2_pos_lt p) as Hplt. fold d in Hplt.
  assert (21 <= d) as Hd21.
  { destruct (Z.lt_ge_cases d 21) as [Hc|Hc]; [|exact Hc].
    assert (2 ^ d <= 2 ^ 20) by (apply Z.pow_le_mono_r; lia). lia. }
  pose proof (Prim2SF_valid (200 / u32_to_double (Zpos p))) as Hv.
  rewrite div_spec in Hv |- *. rewrite Hp in Hv |- *.
  change (Prim2SF 200) with (S754_finite false 7036874417766400 (-45)) in Hv |- *.
  set (mn := Pos.iter xO p (Z.to_pos (53 - d))) in *.
  assert (Zpos (digits2_pos mn) = 53) as Hdm.
  { unfold mn. rewrite digits2_pos_Pos_iter_xO. fold d. rewrite Z2Pos.id by lia. lia. }
  assert (Zpos mn = Zpos p * 2 ^ (53 - d)) as Hmn.
  { unfold mn. rewrite Zpos_iter_xO, Z2Pos.id by lia. reflexivity. }
  rewrite SFdiv_200 in Hv |- * by (try exact Hdm; lia).
  cbn zeta in Hv |- *.
  pose proof (digits2_pos_lower mn) as Hlow. rewrite Hdm in Hlow.
  change (2 ^ (53 - 1)) with 4503599627370496 in Hlow.
  pose proof (digits2_pos_lt mn) as Hup. rewrite Hdm in Hup.
  change (2 ^ 53) with 9007199254740992 in Hup.
  pose proof (Z.mul_div_le (25 * 2 ^ 101) (Zpos mn) ltac:(lia)) as HQ1.
  pose proof (Z.mul_succ_div_gt (25 * 2 ^ 101) (Zpos mn) ltac:(lia)) as HQ2.
  set (Q := 25 * 2 ^ 101 / Zpos mn) in *.
  assert (2 ^ 52 <= Q < 2 ^ 54) as HQ.
  { change (25 * 2 ^ 101) with 63382530011411470074835160268800 in *.
    change (2 ^ 52) with 4503599627370496. change (2 ^ 54) with 18014398509481984.
    split; nia. }
  destruct (round_core_54 Q (new_location (Zpos mn) (25 * 2 ^ 101 mod Zpos mn)) HQ)
    as (M & k & Hrc & Hk & HM & HMk).
  rewrite Hrc in Hv |- *. cbn [fst snd] in Hv |- *.
  destruct M as [|Mq|Mq]; try lia.
  exists Mq, (-98 - (d - 53) + k).
  split; [reflexivity|].
  destruct (valid_normal _ _ _ Hv ltac:(lia)) as [HdM _].
  split; [exact HdM|]. split; [lia|].
  replace (-98 - (d - 53) + k + 77) with (k + (32 - d)) by lia.
  rewrite Z.pow_add_r by lia.
  replace (53 - d) with (21 + (32 - d)) in Hmn by lia.
  rewrite Z.pow_add_r in Hmn by lia.
  assert (2 ^ d * 2 ^ (32 - d) = 2 ^ 32) as HW.
  { rewrite <- Z.pow_add_r by lia. f_equal. lia. }
  assert (0 < 2 ^ (32 - d)) as HW0 by (apply Z.pow_pos_nonneg; lia).
  set (W := 2 ^ (32 - d)) in *. set (X := Zpos Mq * 2 ^ k) in *.
  set (Y := Zpos p * W).
  assert (0 < Y < 2 ^ 32) as HY by (unfold Y; nia).
  assert (Zpos mn = 2 ^ 21 * Y) as HmY by (unfold Y; rewrite Hmn; ring).
  rewrite HmY in HQ1, HQ2.
  replace (X * W * Zpos p) with (X * Y) by (unfold Y; ring).
  change (25 * 2 ^ 101) with (2 ^ 21 * (25 * 2 ^ 80)) in HQ1, HQ2.
  assert (Q * Y <= 25 * 2 ^ 80) as HA1 by nia.
  assert (25 * 2 ^ 80 < (Q + 1) * Y) as HA2 by nia.
  change (2 ^ 32) with 4294967296 in *. nia.
Qed.

Lemma SFltb_same_exponent (m1 m2 : positive) (e : Z) :
  Zpos m1 < Zpos m2 ->
  SFltb (S754_finite false m1 e) (S754_finite false m2 e) = true.
Proof.
  intros H. unfold SFltb. cbn. rewrite Z.compare_refl.
  change (PosDef.Pos.compare_cont Eq m1 m2) with (Pos.compare m1 m2).
  destruct (Pos.compare_spec m1 m2); try reflexivity; lia.
Qed.

(** [10.0 + q] for a quotient [q] of exponent between -77 and -64: the sum
    has exponent -49 and is [q] rounded to a multiple of [2^-49], to the
    nearest. *)
Lemma ten_plus (Mq : positive) (eq : Z) :
  Zpos (digits2_pos Mq) = 53 -> -77 <= eq <= -64 ->
  exists mB : positive,
    SF64add (S754_finite false 5629499534213120 (-49)) (S754_finite false Mq eq)
    = S754_finite false mB (-49)
    /\ 5629499534213120 <= Zpos mB <= 5629499534213120 + 2 ^ 39
    /\ - 2 ^ 28 <= 2 * ((Zpos mB - 5629499534213120) * 2 ^ 28 - Zpos Mq * 2 ^ (eq + 77))
       <= 2 ^ 28.
Proof.
  intros Hd He. unfold SF64add, SFadd.
  change (IntDef.Z.min (-49) eq) with (Z.min (-49) eq).
  rewrite Z.min_r by lia.
  unfold shl_align. rewrite Z.sub_diag.
  destruct (eq - -49) as [|q|q] eqn:E; try lia.
  cbn [fst cond_Zopp].
  pose proof (digits2_pos_lower Mq) as Hlow. rewrite Hd in Hlow.
  change (2 ^ (53 - 1)) with 4503599627370496 in Hlow.
  pose proof (digits2_pos_lt Mq) as Hup. rewrite Hd in Hup.
  change (2 ^ 53) with 9007199254740992 in Hup.
  set (s := (PosDef.Pos.iter xO 5629499534213120 q + Mq)%positive).
  assert (Zpos s = 5629499534213120 * 2 ^ Zpos q + Zpos Mq) as Hs.
  { unfold s. rewrite Pos2Z.inj_add.
    change (PosDef.Pos.iter xO 5629499534213120%positive q)
      with (Pos.iter xO 5629499534213120%positive q).
    rewrite Zpos_iter_xO. reflexivity. }
  assert (2 ^ 15 <= 2 ^ Zpos q) as HP by (apply Z.pow_le_mono_r; lia).
  assert (2 ^ (52 + Zpos q) = 2 ^ 52 * 2 ^ Zpos q) as E52 by (apply Z.pow_add_r; lia).
  assert (2 ^ (53 + Zpos q) = 2 ^ 53 * 2 ^ Zpos q) as E53 by (apply Z.pow_add_r; lia).
  assert (2 ^ Zpos q * 2 ^ (eq + 77) = 2 ^ 28) as HPV.
  { rewrite <- Z.pow_add_r by lia. f_equal. lia. }
  assert (0 < 2 ^ (eq + 77)) as HV by (apply Z.pow_pos_nonneg; lia).
  change (2 ^ 15) with 32768 in HP. change (2 ^ 52) with 4503599627370496 in E52.
  change (2 ^ 53) with 9007199254740992 in E53.
  assert (Zdigits2 (Zpos s) = 53 + Zpos q) as Hds.
  { apply Zdigits2_eq; [lia|]. replace (53 + Zpos q - 1) with (52 + Zpos q) by lia.
    rewrite E52, E53, Hs. lia. }
  change (Z.pos (PosDef.Pos.iter xO 5629499534213120%positive q) + Z.pos Mq)
    with (Zpos s).
  cbn [binary_normalize]. unfold binary_round, shl_align.
  cbn [Zdigits2] in Hds. rewrite Hds.
  rewrite fexp_linear by lia.
  replace (53 + Zpos q + eq - 53 - eq) with (Zpos q) by lia.
  replace (53 + Zpos q + eq - 53) with (-49) by lia.
  rewrite binary_round_aux_linear by lia.
  destruct (round_core_exact (Zpos s) (Zpos q) ltac:(lia) ltac:(rewrite E52, Hs; lia)
              ltac:(rewrite E53, Hs; lia)) as (M & Hrc & HM & Hsharp).
  rewrite Hrc. cbn [fst snd].
  change (2 ^ 52) with 4503599627370496 in HM.
  destruct M as [|mB|mB]; try lia.
  replace (eq + Zpos q) with (-49) by lia. cbn [Z.leb Z.compare].
  exists mB. split; [reflexivity|].
  rewrite Hs in Hsharp.
  set (P := 2 ^ Zpos q) in *. set (V := 2 ^ (eq + 77)) in *.
  change (2 ^ 39) with 549755813888.
  split; [nia|]. rewrite <- HPV. nia.
Qed.

(** A product of 53-bit mantissas with [53 + t] bits, rounded to 53. *)
Lemma times_factor (mB mf : positive) (ef t : Z) :
  0 < t -> -1021 <= -49 + ef -> -49 + ef + t <= 971 ->
  2 ^ (52 + t) + 2 ^ t <= Zpos mB * Zpos mf ->
  Zpos mB * Zpos mf + 2 ^ t <= 2 ^ (53 + t) ->
  exists mA : positive,
    SF64mul (S754_finite false mB (-49)) (S754_finite false mf ef)
    = S754_finite false mA (-49 + ef + t)
    /\ - 2 ^ t <= 2 * (Zpos mA * 2 ^ t - Zpos mB * Zpos mf) <= 2 ^ t.
Proof.
  intros Ht He1 He2 Hl Hu. rewrite SFmul_finite_linear by exact He1. cbn zeta.
  rewrite <- Pos2Z.inj_mul in Hl, Hu.
  destruct (round_core_exact _ t Ht Hl Hu) as (M & Hrc & HM & Hs).
  rewrite Hrc. cbn [fst snd xorb].
  change (2 ^ 52) with 4503599627370496 in HM.
  destruct M as [|mA|mA]; try lia.
  destruct (Z.leb_spec (-49 + ef + t) 971); [|lia].
  exists mA. split; [reflexivity|]. rewrite Pos2Z.inj_mul in Hs. exact Hs.
Qed.

(** [10.0 + 200.0 / n] for a swept size of 21 to 32 bits: a multiple
    [mB * 2^-49], with [mB - 10 * 2^49] the nearest integer to
    [U * 2^-28], where [U] is within [5 * 2^32 / n] of [200 * 2^77 / n]. *)
Lemma base_latency (n : Z) :
  2 ^ 20 <= n < 2 ^ 32 ->
  exists (mB : positive) (U : Z),
    Prim2SF (10 + 200 / u32_to_double n) = S754_finite false mB (-49)
    /\ 5629499534213120 <= Zpos mB <= 5629499534213120 + 2 ^ 39
    /\ - 2 ^ 28 <= 2 * ((Zpos mB - 5629499534213120) * 2 ^ 28 - U) <= 2 ^ 28
    /\ 25 * 2 ^ 80 - 5 * 2 ^ 32 <= U * n <= 25 * 2 ^ 80 + 2 * 2 ^ 32.
Proof.
  intros Hn. destruct (quotient_200 n Hn) as (Mq & eq & Hq & Hd & He & HU).
  destruct (ten_plus Mq eq Hd He) as (mB & Hadd & HB & Hs).
  exists mB, (Zpos Mq * 2 ^ (eq + 77)).
  rewrite add_spec, Hq.
  change (Prim2SF 10) with (S754_finite false 5629499534213120 (-49)).
  repeat split; try assumption; lia.
Qed.

Lemma quotient_gap (n U U' G : Z) :
  0 < n -> 0 <= G ->
  25 * 2 ^ 80 - 5 * 2 ^ 32 <= U * n ->
  U' * (n + 1) <= 25 * 2 ^ 80 + 2 * 2 ^ 32 ->
  G * (n * (n + 1)) + 5 * 2 ^ 32 * (n + 1) + 2 * 2 ^ 32 * n < 25 * 2 ^ 80 ->
  G < U - U'.
Proof.
  intros Hn HG H1 H2 HA.
  destruct (Z.lt_ge_cases G (U - U')) as [|Hc]; [assumption|]. exfalso.
  change (25 * 2 ^ 80) with 30223145490365729367654400 in *.
  change (5 * 2 ^ 32) with 21474836480 in *. change (2 * 2 ^ 32) with 8589934592 in *.
  assert (U * n * (n + 1) <= (U' + G) * n * (n + 1)) as H3.
  { apply Z.mul_le_mono_nonneg_r; [lia|]. apply Z.mul_le_mono_nonneg_r; lia. }
  assert ((30223145490365729367654400 - 21474836480) * (n + 1) <= U * n * (n + 1)) as H4.
  { apply Z.mul_le_mono_nonneg_r; lia. }
  assert (U' * (n + 1) * n <= (30223145490365729367654400 + 8589934592) * n) as H5.
  { apply Z.mul_le_mono_nonneg_r; lia. }
  nia.
Qed.

(** Two neighbouring sizes whose quotients are more than [G * 2^-77]
    apart get base latencies more than [G * 2^-28 - 1] multiples of
    [2^-49] apart. *)
Lemma base_latency_gap (n G : Z) :
  2 ^ 20 <= n -> n + 1 < 2 ^ 32 -> 0 <= G ->
  G * (n * (n + 1)) + 5 * 2 ^ 32 * (n + 1) + 2 * 2 ^ 32 * n < 25 * 2 ^ 80 ->
  exists mB mB' : positive,
    Prim2SF (10 + 200 / u32_to_double n) = S754_finite false mB (-49)
    /\ Prim2SF (10 + 200 / u32_to_double (n + 1)) = S754_finite false mB' (-49)
    /\ 5629499534213120 <= Zpos mB <= 5629499534213120 + 2 ^ 39
    /\ 5629499534213120 <= Zpos mB' <= 5629499534213120 + 2 ^ 39
    /\ 2 * G - 2 ^ 29 < (Zpos mB - Zpos mB') * 2 ^ 29.
Proof.
  intros Hn Hn1 HG HA.
  destruct (base_latency n ltac:(lia)) as (mB & U & HB & Hr & Hs & HU).
  destruct (base_latency (n + 1) ltac:(lia)) as (mB' & U' & HB' & Hr' & Hs' & HU').
  exists mB, mB'. repeat split; try assumption; try lia.
  pose proof (quotient_gap n U U' G ltac:(lia) HG ltac:(lia) ltac:(lia) HA) as Hg.
  change (2 ^ 29) with (2 * 2 ^ 28). lia.
Qed.

Lemma adjacent_CAIP (n : Z) :
  2 ^ 20 <= n <= 335544263 ->
  (latency_of "CAIP" (n + 1) <? latency_of "CAIP" n)%float = true.
Proof.
  intros Hn. unfold latency_of. cbn [String.eqb Ascii.eqb Bool.eqb].
  destruct (base_latency_gap n (2 ^ 28) ltac:(lia) ltac:(lia) ltac:(lia) ltac:(nia))
    as (mB & mB' & HB & HB' & Hr & Hr' & Hg).
  rewrite ltb_spec, HB, HB'. apply SFltb_same_exponent.
  change (2 ^ 29) with (2 * 2 ^ 28) in Hg. lia.
Qed.

Lemma adjacent_NAP (n : Z) :
  2 ^ 20 <= n <= 335544263 ->
  (latency_of "NAP" (n + 1) <? latency_of "NAP" n)%float = true.
Proof.
  intros Hn. unfold latency_of. cbn [String.eqb Ascii.eqb Bool.eqb].
  destruct (base_latency_gap n (2 ^ 28) ltac:(lia) ltac:(lia) ltac:(lia) ltac:(nia))
    as (mB & mB' & HB & HB' & Hr & Hr' & Hg).
  change (2 ^ 29) with (2 * 2 ^ 28) in Hg. change (2 ^ 39) with 549755813888 in Hr, Hr'.
  rewrite ltb_spec, !mul_spec, HB, HB'.
  change (Prim2SF 1.35) with (S754_finite false 6079859496950170 (-52)).
  destruct (times_factor mB 6079859496950170 (-52) 52 ltac:(lia) ltac:(lia) ltac:(lia)
              ltac:(change (2 ^ (52 + 52)) with 20282409603651670423947251286016;
                    change (2 ^ 52) with 4503599627370496; lia)
              ltac:(change (2 ^ (53 + 52)) with 40564819207303340847894502572032;
                    change (2 ^ 52) with 4503599627370496; lia))
    as (mA & -> & Hs).
  destruct (times_factor mB' 6079859496950170 (-52) 52 ltac:(lia) ltac:(lia) ltac:(lia)
              ltac:(change (2 ^ (52 + 52)) with 20282409603651670423947251286016;
                    change (2 ^ 52) with 4503599627370496; lia)
              ltac:(change (2 ^ (53 + 52)) with 40564819207303340847894502572032;
                    change (2 ^ 52) with 4503599627370496; lia))
    as (mA' & -> & Hs').
  apply SFltb_same_exponent.
  change (2 ^ 52) with 4503599627370496 in Hs, Hs'. lia.
Qed.

Lemma adjacent_AITP (n : Z) :
  2 ^ 20 <= n <= 237265635 ->
  (latency_of "AITP" (n + 1) <? latency_of "AITP" n)%float = true.
Proof.
  intros Hn. unfold latency_of. cbn [String.eqb Ascii.eqb Bool.eqb].
  destruct (base_latency_gap n (2 ^ 29) ltac:(lia) ltac:(lia) ltac:(lia) ltac:(nia))
    as (mB & mB' & HB & HB' & Hr & Hr' & Hg).
  change (2 ^ 39) with 549755813888 in Hr, Hr'.
  rewrite ltb_spec, !mul_spec, HB, HB'.
  change (Prim2SF 0.9683) with (S754_finite false 8721671038365703 (-53)).
  destruct (times_factor mB 8721671038365703 (-53) 53 ltac:(lia) ltac:(lia) ltac:(lia)
              ltac:(change (2 ^ (52 + 53)) with 40564819207303340847894502572032;
                    change (2 ^ 53) with 9007199254740992; lia)
              ltac:(change (2 ^ (53 + 53)) with 81129638414606681695789005144064;
                    change (2 ^ 53) with 9007199254740992; lia))
    as (mA & -> & Hs).
  destruct (times_factor mB' 8721671038365703 (-53) 53 ltac:(lia) ltac:(lia) ltac:(lia)
              ltac:(change (2 ^ (52 + 53)) with 40564819207303340847894502572032;
                    change (2 ^ 53) with 9007199254740992; lia)
              ltac:(change (2 ^ (53 + 53)) with 81129638414606681695789005144064;
                    change (2 ^ 53) with 9007199254740992; lia))
    as (mA' & -> & Hs').
  apply SFltb_same_exponent.
  change (2 ^ 53) with 9007199254740992 in Hs, Hs'. lia.
Qed.

Lemma to_Z_succ (c : int) :
  Uint63.to_Z c + 1 < wB -> Uint63.to_Z (c + 1)%uint63 = Uint63.to_Z c + 1.
Proof.
  intros H. rewrite Uint63.add_spec, Uint63.to_Z_1.
  pose proof (Uint63.to_Z_bounded c). apply Z.mod_small. lia.
Qed.

Lemma decreasing_from_sound (f : int -> float) (fuel : nat) (c : int) :
  decreasing_from f fuel c = true ->
  Uint63.to_Z c + Z.of_nat fuel < wB ->
  forall a b : int,
    Uint63.to_Z c <= Uint63.to_Z a -> Uint63.to_Z a < Uint63.to_Z b ->
    Uint63.to_Z b <= Uint63.to_Z c + Z.of_nat fuel ->
    (f b <? f a)%float = true.
Proof.
  revert c. induction fuel as [|fuel IH]; intros c Hd Hw a b Ha Hab Hb; [lia|].
  cbn [decreasing_from] in Hd. apply andb_true_iff in Hd as [Hstep Hrest].
  assert (Uint63.to_Z (c + 1)%uint63 = Uint63.to_Z c + 1) as Hc1 by (apply to_Z_succ; lia).
  destruct (Z.eq_dec (Uint63.to_Z a) (Uint63.to_Z c)) as [Hac|Hac].
  - apply Uint63.to_Z_inj in Hac. subst a.
    destruct (Z.eq_dec (Uint63.to_Z b) (Uint63.to_Z c + 1)) as [Hbc|Hbc].
    + rewrite <- Hc1 in Hbc. apply Uint63.to_Z_inj in Hbc. subst b. exact Hstep.
    + apply (ltb_trans _ (f (c + 1)%uint63)); [|exact Hstep].
      apply (IH (c + 1)%uint63); try assumption; lia.
  - apply (IH (c + 1)%uint63); try assumption; lia.
Qed.

Lemma latency_of_at (mode : string) (n : Z) :
  0 <= n < 2 ^ 32 -> latency_of mode n = latency_at mode (Uint63.of_Z n).
Proof.
  intros H. unfold latency_of, latency_at, u32_to_double, u32.
  rewrite Z.mod_small by exact H.
  destruct (String.eqb mode "AITP"); [reflexivity|].
  destruct (String.eqb mode "CAIP"); reflexivity.
Qed.

Lemma head_AITP : decreasing_from (latency_at "AITP") 1048575 1 = true.
Proof. vm_compute. reflexivity. Qed.

Lemma head_CAIP : decreasing_from (latency_at "CAIP") 1048575 1 = true.
Proof. vm_compute. reflexivity. Qed.

Lemma head_NAP : decreasing_from (latency_at "NAP") 1048575 1 = true.
Proof. vm_compute. reflexivity. Qed.

Lemma tail_AITP : decreasing_from (latency_at "AITP") 41158 237265636 = true.
Proof. vm_compute. reflexivity. Qed.

Lemma tail_CAIP : decreasing_from (latency_at "CAIP") 13008 335544264 = true.
Proof. vm_compute. reflexivity. Qed.

Lemma tail_NAP : decreasing_from (latency_at "NAP") 13008 335544264 = true.
Proof. vm_compute. reflexivity. Qed.

(** One step of a checked range, on integers. *)
Lemma checked_step (mode : string) (steps : nat) (c fuel n : Z) :
  decreasing_from (latency_at mode) steps (Uint63.of_Z c) = true ->
  Z.of_nat steps = fuel ->
  0 <= c -> c + fuel < 2 ^ 32 -> c <= n < c + fuel ->
  (latency_of mode (n + 1) <? latency_of mode n)%float = true.
Proof.
  intros Hchk Hf Hc Hw Hn.
  pose proof (decreasing_from_sound _ _ _ Hchk) as Hs.
  rewrite Hf in Hs.
  rewrite Uint63.of_Z_spec, Z.mod_small in Hs
    by (change wB with 9223372036854775808; lia).
  rewrite !latency_of_at by lia.
  apply Hs; [change wB with 9223372036854775808; lia|..];
    rewrite !Uint63.of_Z_spec, !Z.mod_small
      by (change wB with 9223372036854775808; lia); lia.
Qed.

Lemma adjacent (mode : string) (n : Z) :
  1 <= n < strict_reach mode ->
  (latency_of mode (n + 1) <? latency_of mode n)%float = true.
Proof.
  intros Hn.
  assert (latency_of mode = latency_of "AITP" /\ strict_reach mode = 237306794
          \/ latency_of mode = latency_of "CAIP" /\ strict_reach mode = 335557272
          \/ latency_of mode = latency_of "NAP" /\ strict_reach mode = 335557272)
    as Hcases.
  { unfold latency_of, strict_reach.
    destruct (String.eqb mode "AITP"); [left; split; reflexivity|].
    destruct (String.eqb mode "CAIP"); [right; left; split; reflexivity|].
    right; right; split; reflexivity. }
  destruct Hcases as [[-> HT] | [[-> HT] | [-> HT]]]; rewrite HT in Hn.
  - destruct (Z.lt_ge_cases n (2 ^ 20)) as [H1|H1].
    + apply (checked_step "AITP" 1048575%nat 1 1048575); [exact head_AITP|vm_compute; reflexivity|lia..].
    + destruct (Z.le_gt_cases n 237265635) as [H2|H2].
      * apply adjacent_AITP. lia.
      * apply (checked_step "AITP" 41158%nat 237265636 41158); [exact tail_AITP|vm_compute; reflexivity|lia..].
  - destruct (Z.lt_ge_cases n (2 ^ 20)) as [H1|H1].
    + apply (checked_step "CAIP" 1048575%nat 1 1048575); [exact head_CAIP|vm_compute; reflexivity|lia..].
    + destruct (Z.le_gt_cases n 335544263) as [H2|H2].
      * apply adjacent_CAIP. lia.
      * apply (checked_step "CAIP" 13008%nat 335544264 13008); [exact tail_CAIP|vm_compute; reflexivity|lia..].
  - destruct (Z.lt_ge_cases n (2 ^ 20)) as [H1|H1].
    + apply (checked_step "NAP" 1048575%nat 1 1048575); [exact head_NAP|vm_compute; reflexivity|lia..].
    + destruct (Z.le_gt_cases n 335544263) as [H2|H2].
      * apply adjacent_NAP. lia.
      * apply (checked_step "NAP" 13008%nat 335544264 13008); [exact tail_NAP|vm_compute; reflexivity|lia..].
Qed.

Lemma latency_decreasing (mode : string) (n1 n2 : Z) :
  1 <= n1 -> n1 < n2 -> n2 <= strict_reach mode ->
  (latency_of mode n2 <? latency_of mode n1)%float = true.
Proof.
  intros H1 H12 H2.
  assert (forall k : nat, n1 + 1 + Z.of_nat k <= strict_reach mode ->
            (latency_of mode (n1 + 1 + Z.of_nat k) <? latency_of mode n1)%float = true)
    as Hk.
  { induction k as [|k IH]; intros Hle.
    - rewrite Z.add_0_r. apply adjacent. lia.
    - apply (ltb_trans _ (latency_of mode (n1 + 1 + Z.of_nat k))).
      + replace (n1 + 1 + Z.of_nat (S k)) with (n1 + 1 + Z.of_nat k + 1) by lia.
        apply adjacent. lia.
      + apply IH. lia. }
  replace n2 with (n1 + 1 + Z.of_nat (Z.to_nat (n2 - n1 - 1))) by lia.
  apply Hk. lia.
Qed.

(** *** The latency never grows *)

Lemma SFleb_trans (x y z : spec_float) :
  SFleb x y = true -> SFleb y z = true -> SFleb x z = true.
Proof.
  unfold SFleb.
  destruct x as [sx|sx| |sx mx ex], y as [sy|sy| |sy my ey], z as [sz|sz| |sz mz ez];
    cbn; try discriminate; try reflexivity;
    destruct sx, sy, sz; cbn; try discriminate; try reflexivity;
    change (PosDef.Pos.compare_cont Eq) with Pos.compare;
    destruct (Z.compare_spec ex ey), (Z.compare_spec ey ez), (Z.compare_spec ex ez);
    try discriminate; try reflexivity; try lia; subst;
    destruct (Pos.compare_spec mx my), (Pos.compare_spec my mz), (Pos.compare_spec mx mz);
    cbn; try discriminate; try reflexivity; try lia.
Qed.

Lemma leb_trans (x y z : float) :
  (x <=? y)%float = true -> (y <=? z)%float = true -> (x <=? z)%float = true.
Proof. rewrite !leb_spec. apply SFleb_trans. Qed.

Lemma ltb_leb (x y : float) : (x <? y)%float = true -> (x <=? y)%float = true.
Proof.
  rewrite ltb_spec, leb_spec. unfold SFltb, SFleb.
  destruct (SFcompare (Prim2SF x) (Prim2SF y)) as [[| |]|]; try discriminate; reflexivity.
Qed.

Lemma SFleb_same_exponent (m1 m2 : positive) (e : Z) :
  Zpos m1 <= Zpos m2 ->
  SFleb (S754_finite false m1 e) (S754_finite false m2 e) = true.
Proof.
  intros H. unfold SFleb. cbn. rewrite Z.compare_refl.
  change (PosDef.Pos.compare_cont Eq m1 m2) with (Pos.compare m1 m2).
  destruct (Pos.compare_spec m1 m2); try reflexivity; lia.
Qed.

(** Rounded products with a common factor keep the order of the other
    factors. *)
Lemma times_factor_le (mB mB' mf : positive) (ef t : Z) :
  0 < t -> -1021 <= -49 + ef -> -49 + ef + t <= 971 ->
  2 ^ (52 + t) + 2 ^ t <= Zpos mB' * Zpos mf ->
  Zpos mB * Zpos mf + 2 ^ t <= 2 ^ (53 + t) ->
  Zpos mB' <= Zpos mB ->
  SFleb (SF64mul (S754_finite false mB' (-49)) (S754_finite false mf ef))
        (SF64mul (S754_finite false mB (-49)) (S754_finite false mf ef)) = true.
Proof.
  intros Ht He1 He2 Hl Hu Hle.
  assert (0 < 2 ^ t) as HP by (apply Z.pow_pos_nonneg; lia).
  destruct (times_factor mB mf ef t Ht He1 He2 ltac:(nia) Hu) as (mA & EA & Hs).
  destruct (times_factor mB' mf ef t Ht He1 He2 Hl ltac:(nia)) as (mA' & EA' & Hs').
  destruct (Z.eq_dec (Zpos mB') (Zpos mB)) as [E|E].
  - injection E as ->. rewrite EA. apply SFleb_same_exponent. lia.
  - rewrite EA, EA'. apply SFleb_same_exponent.
    set (P := 2 ^ t) in *. nia.
Qed.

(** From one swept size to the next the latency never grows, for sizes of
    21 to 32 bits. *)
Lemma adjacent_le (mode : string) (n : Z) :
  2 ^ 20 <= n -> n + 1 < 2 ^ 32 ->
  (latency_of mode (n + 1) <=? latency_of mode n)%float = true.
Proof.
  intros Hn Hn1.
  destruct (base_latency_gap n 0 Hn Hn1 ltac:(lia) ltac:(lia))
    as (mB & mB' & HB & HB' & Hr & Hr' & Hg).
  assert (Zpos mB' <= Zpos mB) as Hle by lia.
  change (2 ^ 39) with 549755813888 in Hr, Hr'.
  unfold latency_of. rewrite leb_spec.
  destruct (String.eqb mode "AITP"); [|destruct (String.eqb mode "CAIP")].
  - rewrite !mul_spec, HB, HB'.
    change (Prim2SF 0.9683) with (S754_finite false 8721671038365703 (-53)).
    apply (times_factor_le mB mB' 8721671038365703 (-53) 53); lia.
  - rewrite HB, HB'. apply SFleb_same_exponent. exact Hle.
  - rewrite !mul_spec, HB, HB'.
    change (Prim2SF 1.35) with (S754_finite false 6079859496950170 (-52)).
    apply (times_factor_le mB mB' 6079859496950170 (-52) 52); lia.
Qed.

Lemma strict_reach_bounds (mode : string) : 2 ^ 20 < strict_reach mode < 2 ^ 32.
Proof. unfold strict_reach. destruct (String.eqb mode "AITP"); lia. Qed.

Lemma latency_nonincreasing (mode : string) (n1 n2 : Z) :
  1 <= n1 -> n1 < n2 -> n2 < 2 ^ 32 ->
  (latency_of mode n2 <=? latency_of mode n1)%float = true.
Proof.
  intros H1 H12 H2.
  pose proof (strict_reach_bounds mode) as HT.
  assert (forall n, 1 <= n -> n + 1 < 2 ^ 32 ->
            (latency_of mode (n + 1) <=? latency_of mode n)%float = true) as Hadj.
  { intros n Hn Hn1. destruct (Z.lt_ge_cases n (strict_reach mode)) as [Hc|Hc].
    - apply ltb_leb, adjacent. lia.
    - apply adjacent_le; lia. }
  assert (forall k : nat, n1 + 1 + Z.of_nat k < 2 ^ 32 ->
            (latency_of mode (n1 + 1 + Z.of_nat k) <=? latency_of mode n1)%float = true)
    as Hk.
  { induction k as [|k IH]; intros Hle.
    - rewrite Z.add_0_r. apply Hadj; lia.
    - apply (leb_trans _ (latency_of mode (n1 + 1 + Z.of_nat k))).
      + replace (n1 + 1 + Z.of_nat (S k)) with (n1 + 1 + Z.of_nat k + 1) by lia.
        apply Hadj; lia.
      + apply IH. lia. }
  replace n2 with (n1 + 1 + Z.of_nat (Z.to_nat (n2 - n1 - 1))) by lia.
  apply Hk. lia.
Qed.

(** ** Examples *)

Example latency_default_CAIP :
  ComputeLatency default_params "CAIP" 500
  = [14.0; 12.0; 11.0; 0x1.5555555555555p+3; 10.5; 10.4]%float.
Proof. vm_compute. reflexivity. Qed.

Example ln_1 : Sample.ln 1 = 0%float.
Proof. vm_compute. reflexivity. Qed.

Example ln_e : (abs (Sample.ln 0x1.5bf0a8b145769p+1 - 1) <=? 0x1p-50)%float = true.
Proof. vm_compute. reflexivity. Qed.

(** ** The CSV sink *)

Section Sink.
Context {P : Platform}.

Lemma LogToCsv_world (filename hdr : string) (values : list float) (w : World) :
  LogToCsv filename hdr values w
  = (tt, {| initialized := <[filename := true]> (initialized w);
            gen := gen w;
            disk := if openable w filename
                    then <[filename :=
                            (if seen w filename then default [] (disk w !! filename)
                             else [Str hdr; Endl]) ++ row values]> (disk w)
                    else disk w;
            openable := openable w |}).
Proof.
  unfold LogToCsv, map_index, seen, row, ofstream_open, ofstream_put, ofstream_close.
  destruct (openable w filename);
    destruct (initialized w !! filename) as [[|]|] eqn:E; cbn;
    rewrite ?(insert_id _ _ _ E), ?insert_insert_eq, <- ?app_assoc; reflexivity.
Qed.

Lemma LogToCsv_apply (filename hdr : string) (values : list float) (w : World) :
  LogToCsv filename hdr values w = (tt, apply_write w (filename, hdr, values)).
Proof. unfold apply_write. cbn [fst snd]. rewrite LogToCsv_world. reflexivity. Qed.

Lemma seen_apply_write (w : World) (c : write) (f : string) :
  seen (apply_write w c) f = String.eqb c.1.1 f || seen w f.
Proof.
  unfold apply_write. rewrite LogToCsv_world. unfold seen. cbn.
  destruct (String.eqb_spec c.1.1 f) as [->|Hne].
  - rewrite lookup_insert_eq. reflexivity.
  - rewrite lookup_insert_ne by exact Hne. reflexivity.
Qed.

Lemma gen_apply_writes (ws : list write) (w : World) :
  gen (apply_writes ws w) = gen w.
Proof.
  revert w. induction ws as [|c ws IH]; intros w; [reflexivity|].
  cbn [apply_writes fold_left]. fold (apply_writes ws (apply_write w c)).
  rewrite IH. unfold apply_write. rewrite LogToCsv_world. reflexivity.
Qed.

Lemma openable_apply_writes (ws : list write) (w : World) :
  openable (apply_writes ws w) = openable w.
Proof.
  revert w. induction ws as [|c ws IH]; intros w; [reflexivity|].
  cbn [apply_writes fold_left]. fold (apply_writes ws (apply_write w c)).
  rewrite IH. unfold apply_write. rewrite LogToCsv_world. reflexivity.
Qed.

Lemma apply_writes_set_gen (ws : list write) (g : Engine) (w : World) :
  apply_writes ws (set_gen g w) = set_gen g (apply_writes ws w).
Proof.
  revert w. induction ws as [|c ws IH]; intros w; [reflexivity|].
  cbn [apply_writes fold_left]. fold (apply_writes ws (apply_write w c)).
  fold (apply_writes ws (apply_write (set_gen g w) c)).
  rewrite <- IH. f_equal.
  unfold apply_write. rewrite !LogToCsv_world. reflexivity.
Qed.

(** What a sequence of calls leaves in a file: the file is untouched when
    no call names it or when it cannot be opened; otherwise it holds what
    the first call found or started (the old content when the file was
    already marked by this process, else just the header of that first
    call) followed by one row per call, in call order. *)
Lemma rows_for_no_header (f : string) (ws : list write) :
  first_header f ws = None -> rows_for f ws = [].
Proof.
  induction ws as [|c ws IH]; [reflexivity|].
  unfold rows_for. cbn [first_header flat_map].
  destruct (String.eqb c.1.1 f); [discriminate|].
  intros H. apply IH. exact H.
Qed.

Lemma disk_apply_writes (ws : list write) (w : World) (f : string) :
  disk (apply_writes ws w) !! f
  = match first_header f ws with
    | None => disk w !! f
    | Some hdr =>
        if openable w f
        then Some ((if seen w f then default [] (disk w !! f) else [Str hdr; Endl])
                   ++ rows_for f ws)
        else disk w !! f
    end.
Proof.
  revert w. induction ws as [|[[cf ch] cv] ws IH]; intros w; [reflexivity|].
  cbn [apply_writes fold_left]. fold (apply_writes ws (apply_write w (cf, ch, cv))).
  rewrite IH, seen_apply_write.
  unfold rows_for. cbn [first_header flat_map fst snd]. fold (rows_for f ws).
  unfold apply_write. rewrite LogToCsv_world. cbn [snd fst disk openable].
  destruct (String.eqb cf f) eqn:E.
  - apply String.eqb_eq in E. subst cf.
    destruct (openable w f) eqn:Eo.
    + rewrite lookup_insert_eq. cbn [orb default from_option]. unfold id.
      destruct (first_header f ws) as [h'|] eqn:Eh.
      * rewrite <- app_assoc. reflexivity.
      * rewrite (rows_for_no_header _ _ Eh), !app_nil_r. reflexivity.
    + destruct (first_header f ws); reflexivity.
  - apply String.eqb_neq in E.
    assert ((if openable w cf
             then <[cf := (if seen w cf then default [] (disk w !! cf)
                           else [Str ch; Endl]) ++ row cv]> (disk w)
             else disk w) !! f = disk w !! f) as ->.
    { destruct (openable w cf); [rewrite lookup_insert_ne by exact E|]; reflexivity. }
    cbn [orb app]. reflexivity.
Qed.

Lemma ComputeRobustness_draws (params : SimulationParams) (mode : string) (k : Z)
    (w : World) :
  ComputeRobustness params mode k w
  = (map (robustness_of mode) (draw_n (length (nStaValues params)) (gen w)).1,
     set_gen (draw_n (length (nStaValues params)) (gen w)).2 w).
Proof.
  unfold ComputeRobustness. revert w.
  induction (nStaValues params) as [|n ns IH]; intros w.
  - destruct w; reflexivity.
  - cbn [mapM length draw_n].
    unfold mbind at 1, M_bind at 1. unfold mbind at 1, M_bind at 1.
    unfold GetRandomFailureRate at 1.
    destruct (uniform01 (gen w)) as [x g1] eqn:Eu.
    unfold mret at 1, M_ret at 1.
    unfold mbind at 1, M_bind at 1.
    rewrite IH. cbn [gen].
    destruct (draw_n (length ns) g1) as [xs g2]. reflexivity.
Qed.

Lemma MetricsForMode_world (params : SimulationParams) (mode : string) (w : World) :
  MetricsForMode params mode w
  = (tt, let r := draw_n (length (nStaValues params)) (gen w) in
         set_gen r.2 (apply_writes (writes_of_mode params mode
                                      (map (robustness_of mode) r.1)) w)).
Proof.
  unfold MetricsForMode, mbind, M_bind.
  rewrite ComputeRobustness_draws.
  rewrite <- apply_writes_set_gen.
  do 5 rewrite LogToCsv_apply. reflexivity.
Qed.

Lemma MetricsForAllModes_world (params : SimulationParams) (w : World) :
  MetricsForAllModes params w
  = (tt, let r := sweep_writes params (modes params) (gen w) in
         set_gen r.2 (apply_writes r.1 w)).
Proof.
  unfold MetricsForAllModes.
  assert (forall ms w,
    mapM (MetricsForMode params) ms w
    = (map (fun _ => tt) ms,
       let r := sweep_writes params ms (gen w) in
       set_gen r.2 (apply_writes r.1 w))) as H.
  { induction ms as [|mode ms IH]; intros w0.
    - destruct w0; reflexivity.
    - cbn [mapM sweep_writes map].
      unfold mbind at 1, M_bind at 1. rewrite MetricsForMode_world.
      unfold mbind at 1, M_bind at 1. rewrite IH.
      unfold mret, M_ret. cbn zeta. cbn [gen set_gen].
      destruct (draw_n (length (nStaValues params)) (gen w0)) as [xs g1].
      cbn [fst snd].
      destruct (sweep_writes params ms g1) as [ws g2]. cbn [fst snd].
      f_equal. rewrite apply_writes_set_gen.
      unfold apply_writes. rewrite fold_left_app. reflexivity. }
  unfold mbind, M_bind. rewrite H. reflexivity.
Qed.

End Sink.

(** ** The loop of [main] *)

Section Loop.
Context {P : Platform}.

Lemma draw_n_app (a b : nat) (g : Engine) :
  draw_n (a + b) g
  = ((draw_n a g).1 ++ (draw_n b (draw_n a g).2).1, (draw_n b (draw_n a g).2).2).
Proof.
  revert g. induction a as [|a IH]; intros g.
  - cbn. destruct (draw_n b g); reflexivity.
  - cbn [Nat.add draw_n]. destruct (uniform01 g) as [x g1].
    rewrite IH. destruct (draw_n a g1) as [xs g2]. cbn [fst snd].
    reflexivity.
Qed.

Lemma draw_n_length (k : nat) (g : Engine) : length (draw_n k g).1 = k.
Proof.
  revert g. induction k as [|k IH]; intros g; [reflexivity|].
  cbn [draw_n]. destruct (uniform01 g) as [x g1]. specialize (IH g1).
  destruct (draw_n k g1) as [xs g2]. cbn [fst length] in *. rewrite IH. reflexivity.
Qed.

(** What [Parse] leaves of the defaults: everything but the two values the
    command line can set. *)
Lemma Parse_default (cmd : CommandLine) (params : SimulationParams) :
  Parse cmd default_params = Some params ->
  modes params = ["AITP"; "CAIP"; "NAP"]
  /\ nStaValues params = [50; 100; 200; 300; 400; 500]
  /\ dpEpsilon params = default 1.0%float (cmd_dpEpsilon cmd)
  /\ nSta params = default 500 (Z.of_N <$> cmd_nSta cmd).
Proof.
  unfold Parse, parse_uint32. destruct (cmd_nSta cmd) as [n|]; cbn.
  - destruct (Z.of_N n <? 2 ^ 32); cbn; [|discriminate].
    intros [= <-]. repeat split.
  - intros [= <-]. repeat split.
Qed.

(** The calls of the loop over the three modes, mode by mode. *)
Lemma sweep_writes_three (params : SimulationParams) (g : Engine) :
  modes params = ["AITP"; "CAIP"; "NAP"] ->
  exists r0 r1 r2 : list float,
    (sweep_writes params (modes params) g).1
    = writes_of_mode params "AITP" r0 ++ writes_of_mode params "CAIP" r1
      ++ writes_of_mode params "NAP" r2
    /\ length r0 = length (nStaValues params)
    /\ length r1 = length (nStaValues params)
    /\ length r2 = length (nStaValues params).
Proof.
  intros ->. cbn [sweep_writes].
  pose proof (draw_n_length (length (nStaValues params)) g) as L0.
  destruct (draw_n (length (nStaValues params)) g) as [xs0 g0].
  pose proof (draw_n_length (length (nStaValues params)) g0) as L1.
  destruct (draw_n (length (nStaValues params)) g0) as [xs1 g1].
  pose proof (draw_n_length (length (nStaValues params)) g1) as L2.
  destruct (draw_n (length (nStaValues params)) g1) as [xs2 g2].
  cbn [fst snd] in *. eexists _, _, _. rewrite app_nil_r.
  split; [reflexivity|]. rewrite !length_map. auto.
Qed.

End Loop.

(** ** The metric models against the specification's table *)

Section Metrics.
Context {P : Platform}.

Lemma map_mul_1_r (l : list float) : map (fun x => (x * 1)%float) l = l.
Proof. induction l as [|x l IH]; cbn; [reflexivity|]. rewrite mul_1_r, IH. reflexivity. Qed.

Lemma series_CAIP (m : metric) (params : SimulationParams) (k : Z) :
  series m params "CAIP" k = map (spec_baseline m (dpEpsilon params)) (nStaValues params).
Proof. destruct m; reflexivity. Qed.

Lemma series_AITP (m : metric) (params : SimulationParams) (k : Z) (f : float) :
  spec_factor m "AITP" = Some f ->
  series m params "AITP" k
  = map (fun n => (spec_baseline m (dpEpsilon params) n * f)%float) (nStaValues params).
Proof. destruct m; intros [= <-]; reflexivity. Qed.

(** Any identifier other than "AITP" and "CAIP" takes the last branch. *)
Lemma series_else (m : metric) (params : SimulationParams) (mode : string) (k k' : Z) :
  mode <> "AITP" -> mode <> "CAIP" ->
  series m params mode k = series m params "NAP" k'.
Proof.
  intros H1 H2. apply String.eqb_neq in H1, H2.
  destruct m; unfold series, ComputeLatency, ComputeThroughput,
    ComputeEnergyEfficiency, ComputePrivacyLoss; rewrite H1, H2; reflexivity.
Qed.

Lemma robustness_of_else (mode : string) :
  mode <> "AITP" -> mode <> "CAIP" -> robustness_of mode = robustness_of "NAP".
Proof.
  intros H1 H2. apply String.eqb_neq in H1, H2.
  unfold robustness_of. rewrite H1, H2. reflexivity.
Qed.

(** C1. For each of the three strategies, the latency, throughput,
    energy-efficiency and privacy-loss series hold, at every swept size and
    for every privacy budget, the baseline formula of the metric times the
    strategy's factor from the specification's table; the factor of CAIP
    is 1.0 and every CAIP value is the baseline itself. *)
Theorem C1_series_is_baseline_times_factor
    (m : metric) (params : SimulationParams) (strategy : string) (k : Z) (f : float) :
  spec_factor m strategy = Some f ->
  series m params strategy k
  = map (fun n => (spec_baseline m (dpEpsilon params) n * f)%float) (nStaValues params)
  /\ spec_factor m "CAIP" = Some 1%float
  /\ series m params "CAIP" k
     = map (spec_baseline m (dpEpsilon params)) (nStaValues params).
Proof.
  intros Hf. split; [|split; [reflexivity|apply series_CAIP]].
  unfold spec_factor in Hf.
  destruct (String.eqb_spec strategy "AITP") as [->|H1].
  { apply series_AITP. exact Hf. }
  destruct (String.eqb_spec strategy "CAIP") as [->|H2].
  { injection Hf as <-. rewrite series_CAIP.
    rewrite <- (map_mul_1_r (map _ _)) at 1. rewrite map_map. reflexivity. }
  destruct (String.eqb_spec strategy "NAP") as [->|H3]; [|discriminate].
  destruct m; injection Hf as <-; reflexivity.
Qed.

(** C2, as the code has it.  A strategy identifier that is neither "AITP"
    nor "CAIP" is never rejected: each of the five models returns for it
    exactly what it returns for "NAP". *)
Theorem C2_unrecognized_strategy_is_NAP
    (params : SimulationParams) (strategy : string) (k : Z) (w : World) :
  strategy <> "AITP" -> strategy <> "CAIP" ->
  ComputeLatency params strategy k = ComputeLatency params "NAP" k
  /\ ComputeThroughput params strategy k = ComputeThroughput params "NAP" k
  /\ ComputeEnergyEfficiency params strategy k = ComputeEnergyEfficiency params "NAP" k
  /\ ComputePrivacyLoss params strategy k = ComputePrivacyLoss params "NAP" k
  /\ ComputeRobustness params strategy k w = ComputeRobustness params "NAP" k w.
Proof.
  intros H1 H2.
  pose proof (fun m => series_else m params strategy k k H1 H2) as Hs.
  repeat split; [apply (Hs Latency)|apply (Hs Throughput)
                |apply (Hs EnergyEfficiency)|apply (Hs PrivacyLoss)|].
  rewrite !ComputeRobustness_draws, (robustness_of_else _ H1 H2). reflexivity.
Qed.

End Metrics.

Lemma C1_witness :
  spec_factor Latency "NAP" = Some 1.35%float
  /\ series (P := Sample.platform) Latency default_params "NAP" 500
     = map (fun n => (spec_baseline (P := Sample.platform) Latency 1 n * 1.35)%float)
         [50; 100; 200; 300; 400; 500].
Proof.
  split; [reflexivity|].
  apply (C1_series_is_baseline_times_factor Latency default_params "NAP" 500 1.35%float).
  reflexivity.
Defined.

Lemma C2_witness :
  ("FedAvg" <> "AITP" /\ "FedAvg" <> "CAIP")
  /\ ComputeEnergyEfficiency default_params "FedAvg" 500
     = ComputeEnergyEfficiency default_params "NAP" 500.
Proof.
  split; [split; discriminate|].
  apply (@C2_unrecognized_strategy_is_NAP Sample.platform default_params "FedAvg" 500
           (process_start ∅ (fun _ => true))); discriminate.
Defined.

(** "FedAvg" is in no table of the specification, and [ComputeLatency]
    returns a series for it: the baseline times 1.35. *)
Lemma C2_counterexample :
  spec_factor Latency "FedAvg" = None
  /\ ComputeLatency default_params "FedAvg" 500
     = [18.900000000000002; 16.200000000000003; 14.850000000000001;
        14.4; 14.175000000000001; 14.040000000000001]%float
  /\ ComputeLatency default_params "FedAvg" 500
     = map (fun n => (spec_baseline (P := Sample.platform) Latency 1 n * 1.35)%float)
         (nStaValues default_params).
Proof. repeat split. Qed.

(** ** The sink, call by call *)

Section SinkClaims.
Context {P : Platform}.

Lemma filter_is_Endl_row (values : list float) :
  List.filter is_Endl (row values) = [Endl].
Proof.
  unfold row. rewrite List.filter_app.
  assert (List.filter is_Endl (flat_map (fun value => [Dbl value; Str ","]) values) = []) as ->.
  { induction values as [|v vs IH]; [reflexivity|]. cbn. exact IH. }
  reflexivity.
Qed.

Lemma lines_rows_for (f : string) (ws : list write) :
  length (List.filter is_Endl (rows_for f ws))
  = length (List.filter (fun c : write => String.eqb c.1.1 f) ws).
Proof.
  induction ws as [|c ws IH]; [reflexivity|].
  unfold rows_for. cbn [flat_map]. fold (rows_for f ws).
  rewrite List.filter_app, List.length_app, IH. cbn [List.filter].
  destruct (String.eqb c.1.1 f) eqn:E.
  - rewrite filter_is_Endl_row. reflexivity.
  - reflexivity.
Qed.

(** C4, as the code has it.  In one process, whatever the disk held, for a
    table whose file can be opened: after any sequence of calls, a table
    named by at least one of them holds the header of the first such call,
    once, followed by one data row per call that named it, in call order;
    so it has one line more than it was named.  In particular two calls
    with the same table leave header, first row, second row. *)
Theorem C4_header_once_then_rows_when_opens_succeed
    (fs : gmap string (list chunk)) (ok : string -> bool) (tableId : string) :
  ok tableId = true ->
  (forall (ws : list write) (hdr : string),
      first_header tableId ws = Some hdr ->
      disk (apply_writes ws (process_start fs ok)) !! tableId
      = Some ([Str hdr; Endl] ++ rows_for tableId ws)
      /\ length (List.filter is_Endl ([Str hdr; Endl] ++ rows_for tableId ws))
         = S (length (List.filter (fun c : write => String.eqb c.1.1 tableId) ws)))
  /\ (forall (hdr1 hdr2 : string) (row1 row2 : list float),
        let w1 := (LogToCsv tableId hdr1 row1 (process_start fs ok)).2 in
        let w2 := (LogToCsv tableId hdr2 row2 w1).2 in
        disk w1 !! tableId = Some ([Str hdr1; Endl] ++ row row1)
        /\ disk w2 !! tableId = Some ([Str hdr1; Endl] ++ row row1 ++ row row2)).
Proof.
  intros Hok. split.
  - intros ws hdr Hh. split.
    + rewrite disk_apply_writes, Hh. cbn [openable process_start]. rewrite Hok.
      reflexivity.
    + cbn [app List.filter is_Endl length]. rewrite lines_rows_for. reflexivity.
  - intros hdr1 hdr2 row1 row2 w1 w2. subst w1 w2.
    rewrite !LogToCsv_world. cbn [snd disk seen initialized openable process_start].
    rewrite Hok. rewrite !lookup_insert_eq. unfold seen. cbn [initialized process_start].
    rewrite lookup_empty, lookup_insert_eq. cbn [default from_option].
    unfold id. split; [reflexivity|]. rewrite <- app_assoc. reflexivity.
Qed.

(** C10, as the code has it.  The static map of a process starts empty.
    A call whose open succeeds leaves in the file, when the file is not
    yet marked, the header and the row only (what an earlier process left
    there is gone), and when it is marked, the content found followed by
    the row.  A call whose open fails leaves the file as it was.  Either
    way the file is marked afterwards. *)
Theorem C10_first_open_truncates_later_append
    (w : World) (filename hdr : string) (values : list float)
    (fs : gmap string (list chunk)) (ok : string -> bool) :
  seen (process_start fs ok) filename = false
  /\ disk (LogToCsv filename hdr values w).2 !! filename
     = (if openable w filename
        then Some (if seen w filename
                   then default [] (disk w !! filename) ++ row values
                   else [Str hdr; Endl] ++ row values)
        else disk w !! filename)
  /\ seen (LogToCsv filename hdr values w).2 filename = true
  /\ openable (LogToCsv filename hdr values w).2 = openable w.
Proof.
  rewrite LogToCsv_world. cbn [snd disk openable].
  split; [unfold seen; cbn [process_start initialized]; rewrite lookup_empty; reflexivity|].
  split; [destruct (openable w filename); [rewrite lookup_insert_eq|];
          destruct (seen w filename); reflexivity|].
  split; [|reflexivity].
  unfold seen at 1. cbn [initialized]. rewrite lookup_insert_eq. reflexivity.
Qed.

End SinkClaims.

(** ** The loop of [main] and the command line *)

Section LoopClaims.
Context {P : Platform}.

Lemma sweep_writes_header (params : SimulationParams) (ms : list string) (g : Engine)
    (c : write) :
  In c (sweep_writes params ms g).1 -> c.1.2 = header.
Proof.
  revert g. induction ms as [|mode ms IH]; intros g; [intros []|].
  cbn [sweep_writes]. destruct (draw_n _ g) as [xs g1].
  specialize (IH g1). destruct (sweep_writes params ms g1) as [ws g2].
  cbn [fst] in *. rewrite in_app_iff. intros [Hc|Hc]; [|apply IH; exact Hc].
  unfold writes_of_mode in Hc. cbn [In] in Hc.
  destruct Hc as [<-|[<-|[<-|[<-|[<-|[]]]]]]; reflexivity.
Qed.

Lemma first_header_In (f : string) (ws : list write) (hdr : string) :
  first_header f ws = Some hdr -> exists c, In c ws /\ c.1.2 = hdr.
Proof.
  induction ws as [|c ws IH]; [discriminate|]. cbn [first_header].
  destruct (String.eqb c.1.1 f).
  - intros [= <-]. exists c. split; [left|]; reflexivity.
  - intros H. destruct (IH H) as (d & Hd & Hh). exists d. split; [right|]; assumption.
Qed.

(** The call of the loop that logs a deterministic metric of a mode. *)
Lemma sweep_writes_series (params : SimulationParams) (g : Engine)
    (mode : string) (m : metric) :
  modes params = ["AITP"; "CAIP"; "NAP"] ->
  In mode ["AITP"; "CAIP"; "NAP"] ->
  In ("results_" +:+ mode +:+ file_suffix m, header,
      series m params mode (nSta params))
     (sweep_writes params (modes params) g).1.
Proof.
  intros Hm Hin. destruct (sweep_writes_three params g Hm) as (r0 & r1 & r2 & -> & _).
  rewrite !in_app_iff. unfold writes_of_mode. cbn [In] in *.
  destruct Hin as [<- | [<- | [<- | []]]]; destruct m; cbn; tauto.
Qed.

(** C3, as the code has it.  Nothing validates the parameters.  The parser
    ends the program only for a population count that does not fit
    [uint32_t]: it accepts every privacy budget and the count 0.  What it
    accepts reaches the parameters as given, and the loop, once reached,
    calls [LogToCsv] with the series every model computes from the
    parameters as given. *)
Theorem C3_no_validation_budget_reaches_models
    (cmd : CommandLine) (params : SimulationParams) (w : World) :
  Parse cmd default_params = Some params ->
  dpEpsilon params = default 1.0%float (cmd_dpEpsilon cmd)
  /\ nSta params = default 500 (Z.of_N <$> cmd_nSta cmd)
  /\ (forall (eps : float) (n : N),
        Z.of_N n < 2 ^ 32 ->
        exists params' : SimulationParams,
          Parse {| cmd_nSta := Some n; cmd_dpEpsilon := Some eps |} default_params
          = Some params'
          /\ dpEpsilon params' = eps /\ nSta params' = Z.of_N n)
  /\ (MetricsForAllModes params w).2
     = set_gen (sweep_writes params (modes params) (gen w)).2
         (apply_writes (sweep_writes params (modes params) (gen w)).1 w)
  /\ (forall (mode : string) (m : metric),
        In mode ["AITP"; "CAIP"; "NAP"] ->
        In ("results_" +:+ mode +:+ file_suffix m, header,
            series m params mode (nSta params))
           (sweep_writes params (modes params) (gen w)).1).
Proof.
  intros HP. destruct (Parse_default cmd params HP) as (Hm & Hv & He & Hn).
  split; [exact He|]. split; [exact Hn|]. split.
  - intros eps n Hlt. unfold Parse, parse_uint32. cbn [cmd_nSta cmd_dpEpsilon].
    apply Z.ltb_lt in Hlt. rewrite Hlt. cbn. eexists. split; [reflexivity|].
    split; reflexivity.
  - split; [rewrite MetricsForAllModes_world; reflexivity|].
    intros mode m Hin. apply sweep_writes_series; assumption.
Qed.

(** C5, as the code has it.  [ComputeRobustness] draws once per swept size
    from the engine and leaves it advanced.  The engine of a process
    starts default-constructed, whatever is on disk: so the series the
    first call returns, and all the calls of [LogToCsv] the loop makes,
    are the same in every process. *)
Theorem C5_robustness_same_in_every_process
    (params : SimulationParams) (k : Z) (w : World)
    (fs1 fs2 : gmap string (list chunk)) (ok1 ok2 : string -> bool) :
  (forall mode : string,
      ComputeRobustness params mode k w
      = (map (robustness_of mode) (draw_n (length (nStaValues params)) (gen w)).1,
         set_gen (draw_n (length (nStaValues params)) (gen w)).2 w))
  /\ gen (process_start fs1 ok1) = engine_default
  /\ (forall mode : string,
        (ComputeRobustness params mode k (process_start fs1 ok1)).1
        = (ComputeRobustness params mode k (process_start fs2 ok2)).1)
  /\ disk (MetricsForAllModes params (process_start fs1 ok1)).2
     = disk (apply_writes (loop_writes params) (process_start fs1 ok1))
  /\ disk (MetricsForAllModes params (process_start fs2 ok2)).2
     = disk (apply_writes (loop_writes params) (process_start fs2 ok2)).
Proof.
  split; [intros mode; apply ComputeRobustness_draws|]. split; [reflexivity|].
  split; [intros mode; rewrite !ComputeRobustness_draws; reflexivity|].
  rewrite !MetricsForAllModes_world. split; reflexivity.
Qed.

(** C6.  For the parameters of every command line the parser accepts, every
    call of [LogToCsv] made by the loop passes as header the line with one
    label [nSta=<v>] per swept size, in order, separated by commas; a
    table the loop is first to write in its process, and can open, starts
    with that line. *)
Theorem C6_header_has_one_label_per_swept_size
    (cmd : CommandLine) (params : SimulationParams) (w : World) (f : string) :
  Parse cmd default_params = Some params ->
  let ws := (sweep_writes params (modes params) (gen w)).1 in
  (MetricsForAllModes params w).2 = set_gen (sweep_writes params (modes params) (gen w)).2
                                      (apply_writes ws w)
  /\ (forall c : write, In c ws -> c.1.2 = spec_header (nStaValues params))
  /\ (seen w f = false -> openable w f = true -> first_header f ws <> None ->
      disk (MetricsForAllModes params w).2 !! f
      = Some ([Str (spec_header (nStaValues params)); Endl] ++ rows_for f ws)).
Proof.
  intros HP ws. destruct (Parse_default cmd params HP) as (Hm & Hv & _).
  assert (spec_header (nStaValues params) = header) as ->.
  { rewrite Hv. vm_compute. reflexivity. }
  rewrite MetricsForAllModes_world. cbn [snd].
  split; [reflexivity|]. split; [intros c; apply sweep_writes_header|].
  intros Hs Ho Hh. cbn [disk set_gen]. rewrite disk_apply_writes, Hs, Ho.
  fold ws. destruct (first_header f ws) as [hdr|] eqn:E; [|congruence].
  destruct (first_header_In _ _ _ E) as (c & Hc & <-).
  rewrite (sweep_writes_header _ _ _ _ Hc). reflexivity.
Qed.

Lemma sweep_writes_set_nSta (a b : Z) (params : SimulationParams) (ms : list string)
    (g : Engine) :
  sweep_writes (set_nSta a params) ms g = sweep_writes (set_nSta b params) ms g.
Proof.
  revert g. induction ms as [|mode ms IH]; intros g; [reflexivity|].
  cbn [sweep_writes nStaValues set_nSta].
  destruct (draw_n (length (nStaValues params)) g) as [xs g1].
  rewrite IH. reflexivity.
Qed.

(** C7. The population count is read by no model: the series of every
    metric, and the robustness draws, are the same whatever [nSta] the
    parameters hold and whatever is passed as third argument; so the loop
    does the same whatever [nSta] the parameters hold. *)
Theorem C7_nSta_is_not_read
    (params : SimulationParams) (mode : string) (m : metric) (a b k k' : Z)
    (w : World) :
  series m (set_nSta a params) mode k = series m (set_nSta b params) mode k'
  /\ ComputeRobustness (set_nSta a params) mode k w
     = ComputeRobustness (set_nSta b params) mode k' w
  /\ MetricsForAllModes (set_nSta a params) w = MetricsForAllModes (set_nSta b params) w.
Proof.
  split; [destruct m; reflexivity|]. split; [reflexivity|].
  rewrite !MetricsForAllModes_world.
  rewrite (sweep_writes_set_nSta a b). reflexivity.
Qed.

End LoopClaims.

(** In a directory that cannot be written, two calls for a table leave no
    file at all.  When the directory becomes writable between the calls,
    the second call appends its row to a file that has no header. *)
Lemma C4_counterexample :
  let w0 := process_start (P := Sample.platform) ∅ (fun _ => false) in
  let w1 := (LogToCsv "t.csv" "h" [1%float] w0).2 in
  disk (LogToCsv "t.csv" "h" [2%float] w1).2 !! "t.csv" = None
  /\ disk (LogToCsv "t.csv" "h" [2%float] (set_openable (fun _ => true) w1)).2 !! "t.csv"
     = Some [Dbl 2; Str ","; Endl].
Proof. vm_compute. repeat split. Qed.

Lemma C4_witness :
  (fun _ : string => true) "t.csv" = true
  /\ let w1 := (LogToCsv (P := Sample.platform) "t.csv" "h" [1%float]
                  (process_start ∅ (fun _ => true))).2 in
     let w2 := (LogToCsv "t.csv" "other" [2%float] w1).2 in
     disk w1 !! "t.csv" = Some ([Str "h"; Endl] ++ row [1%float])
     /\ disk w2 !! "t.csv" = Some ([Str "h"; Endl] ++ row [1%float] ++ row [2%float]).
Proof.
  split; [reflexivity|].
  exact (proj2 (C4_header_once_then_rows_when_opens_succeed (P := Sample.platform)
                  ∅ (fun _ => true) "t.csv" eq_refl)
           "h" "other" [1%float] [2%float]).
Defined.

(** The first call of a process for a file that cannot be opened (here a
    file left read-only by an earlier process) discards nothing and writes
    nothing; the file is marked all the same. *)
Lemma C10_counterexample :
  let fs : gmap string (list chunk) := {[ "t.csv" := [Str "old"; Endl] ]} in
  let w0 := process_start (P := Sample.platform) fs (fun _ => false) in
  seen w0 "t.csv" = false
  /\ disk (LogToCsv "t.csv" "h" [1%float] w0).2 !! "t.csv" = Some [Str "old"; Endl]
  /\ seen (LogToCsv "t.csv" "h" [1%float] w0).2 "t.csv" = true.
Proof. vm_compute. repeat split. Qed.

(** With [--nSta=10 --dpEpsilon=0] the parser accepts the command line, the
    budget 0 is what [ComputePrivacyLoss] divides by, and the loop logs an
    infinite privacy loss. *)
Lemma C3_counterexample :
  let cmd := {| cmd_nSta := Some 10%N; cmd_dpEpsilon := Some 0%float |} in
  exists params : SimulationParams,
    Parse cmd default_params = Some params
    /\ dpEpsilon params = 0%float
    /\ ComputePrivacyLoss params "CAIP" (nSta params)
       = [infinity; infinity; infinity; infinity; infinity; infinity]
    /\ disk (MetricsForAllModes (P := Sample.platform) params
               (process_start ∅ (fun _ => true))).2 !! "results_CAIP_privacy.csv"
       = Some [Str header; Endl;
               Dbl infinity; Str ","; Dbl infinity; Str ","; Dbl infinity; Str ",";
               Dbl infinity; Str ","; Dbl infinity; Str ","; Dbl infinity; Str ",";
               Endl].
Proof. eexists. split; [reflexivity|]. vm_compute. repeat split. Qed.

Lemma C3_witness :
  let cmd := {| cmd_nSta := Some 0%N; cmd_dpEpsilon := Some (-1)%float |} in
  let params := set_dpEpsilon (-1) (set_nSta 0 default_params) in
  Parse cmd default_params = Some params
  /\ dpEpsilon params = default 1.0%float (cmd_dpEpsilon cmd)
  /\ nSta params = default 500 (Z.of_N <$> cmd_nSta cmd).
Proof.
  intros cmd params. split; [reflexivity|].
  pose proof (C3_no_validation_budget_reaches_models (P := Sample.platform)
                cmd params (process_start ∅ (fun _ => true)) eq_refl) as H.
  split; [exact (proj1 H)|exact (proj1 (proj2 H))].
Defined.

(** Two processes, started on different disks, compute the same robustness
    series; and the loop, run again in a fresh process on the files the
    first left, logs the same robustness rows (here for the parameters of
    [--nSta=10]). *)
Lemma C5_counterexample :
  let all := fun _ : string => true in
  let params := set_nSta 10 default_params in
  let first := ComputeRobustness (P := Sample.platform) params "CAIP" 10
                 (process_start ∅ all) in
  let second := ComputeRobustness (P := Sample.platform) params "CAIP" 10
                  (process_start {[ "results_CAIP_robustness.csv" := [Endl] ]} all) in
  let w1 := (MetricsForAllModes (P := Sample.platform) params (process_start ∅ all)).2 in
  let w2 := (MetricsForAllModes (P := Sample.platform) params
               (process_start (disk w1) all)).2 in
  Parse {| cmd_nSta := Some 10%N; cmd_dpEpsilon := None |} default_params = Some params
  /\ second.1 = first.1
  /\ disk w1 !! "results_CAIP_robustness.csv"
     = Some [Str header; Endl;
             Dbl 0.98271394476757623; Str ","; Dbl 0.7351499034294714; Str ",";
             Dbl 0.99615090696920039; Str ","; Dbl 0.96657888136871617; Str ",";
             Dbl 0.65661364379547738; Str ","; Dbl 0.53478175251515359; Str ",";
             Endl]
  /\ disk w2 !! "results_CAIP_robustness.csv" = disk w1 !! "results_CAIP_robustness.csv"
  /\ disk w2 !! "results_AITP_robustness.csv" = disk w1 !! "results_AITP_robustness.csv"
  /\ disk w2 !! "results_NAP_robustness.csv" = disk w1 !! "results_NAP_robustness.csv".
Proof. vm_compute. repeat split. Qed.

Lemma C6_witness :
  let cmd := {| cmd_nSta := None; cmd_dpEpsilon := None |} in
  Parse cmd default_params = Some default_params
  /\ forall c : write,
       In c (sweep_writes (P := Sample.platform) default_params (modes default_params)
               (gen (process_start ∅ (fun _ => true)))).1 ->
       c.1.2 = spec_header (nStaValues default_params).
Proof.
  intros cmd. split; [reflexivity|].
  exact (proj1 (proj2 (C6_header_has_one_label_per_swept_size (P := Sample.platform)
                         cmd default_params (process_start ∅ (fun _ => true))
                         "results_AITP_latency.csv" eq_refl))).
Defined.

(** ** Order and scaling of the series *)

(** C8, as the code has it.  For a fixed strategy (any identifier) the
    latency value never grows with the swept size, and is strictly
    decreasing up to the first size whose successor gets the same value:
    for swept sizes [1 <= n1 < n2 < 2^32] the value pushed for [n2] is at
    most the value pushed for [n1], and it is below it when
    [n2 <= 237306794] with "AITP", [n2 <= 335557272] with any other
    identifier. *)
Theorem C8_latency_never_grows_and_decreases_up_to_first_tie
    (params : SimulationParams) (mode : string) (k n1 n2 : Z) :
  1 <= n1 -> n1 < n2 -> n2 < 2 ^ 32 ->
  exists l1 l2 : float,
    ComputeLatency (set_nStaValues [n1; n2] params) mode k = [l1; l2]
    /\ (l2 <=? l1)%float = true
    /\ (n2 <= strict_reach mode -> (l2 <? l1)%float = true).
Proof.
  intros H1 H12 H2. exists (latency_of mode n1), (latency_of mode n2).
  split; [reflexivity|]. split; [apply latency_nonincreasing; assumption|].
  intros H3. apply latency_decreasing; assumption.
Qed.

Lemma C8_witness :
  (1 <= 237306793 /\ 237306793 < 237306794 /\ 237306794 < 2 ^ 32)
  /\ exists l1 l2 : float,
       ComputeLatency (set_nStaValues [237306793; 237306794] default_params) "AITP" 500
       = [l1; l2]
       /\ (l2 <=? l1)%float = true
       /\ (237306794 <= strict_reach "AITP" -> (l2 <? l1)%float = true).
Proof.
  split; [lia|].
  apply (C8_latency_never_grows_and_decreases_up_to_first_tie default_params "AITP" 500
           237306793 237306794); lia.
Defined.

(** The sizes just after the bounds: the size [strict_reach mode] and its
    successor get the same latency, the difference of the quotients being
    below the spacing of doubles near 10. *)
Lemma C8_counterexample :
  ComputeLatency (set_nStaValues [335557272; 335557273] default_params) "CAIP" 500
  = [10.00000059602344; 10.00000059602344]%float
  /\ ComputeLatency (set_nStaValues [237306794; 237306795] default_params) "AITP" 500
     = [9.6830008160744; 9.6830008160744]%float
  /\ ComputeLatency (set_nStaValues [335557272; 335557273] default_params) "NAP" 500
     = [13.500000804631645; 13.500000804631645]%float
  /\ (10.00000059602344 <? 10.00000059602344)%float = false.
Proof. vm_compute. repeat split. Qed.

Lemma ComputePrivacyLoss_repeat (params : SimulationParams) (mode : string) (k : Z) :
  ComputePrivacyLoss params mode k
  = repeat (let baseLoss := (2.0 / dpEpsilon params)%float in
            if String.eqb mode "AITP" then (baseLoss * 0.875)%float
            else if String.eqb mode "CAIP" then baseLoss
            else (baseLoss * 1.2)%float)
      (length (nStaValues params)).
Proof.
  unfold ComputePrivacyLoss. induction (nStaValues params) as [|n ns IH]; [reflexivity|].
  cbn [map length repeat]. rewrite IH. reflexivity.
Qed.

(** C9, as the code has it.  The privacy-loss series holds one value,
    repeated for every swept size.  For a privacy budget between [2^-1000]
    and [2^900], halving the budget doubles the CAIP privacy loss
    exactly. *)
Theorem C9_privacy_constant_and_halving_doubles
    (params : SimulationParams) (mode : string) (k : Z) (eps : float) :
  (0x1p-1000 <=? eps)%float = true -> (eps <=? 0x1p+900)%float = true ->
  (exists v : float,
      ComputePrivacyLoss params mode k = repeat v (length (nStaValues params)))
  /\ ComputePrivacyLoss (set_dpEpsilon (eps / 2) params) "CAIP" k
     = map (fun loss => (2 * loss)%float)
         (ComputePrivacyLoss (set_dpEpsilon eps params) "CAIP" k).
Proof.
  intros Hlo Hhi. split.
  - eexists. apply ComputePrivacyLoss_repeat.
  - unfold ComputePrivacyLoss. cbn [nStaValues dpEpsilon set_dpEpsilon String.eqb
      Ascii.eqb Bool.eqb]. rewrite map_map.
    rewrite (two_div_half eps Hlo Hhi). reflexivity.
Qed.

Lemma C9_witness :
  ((0x1p-1000 <=? 1)%float = true /\ (1 <=? 0x1p+900)%float = true)
  /\ ComputePrivacyLoss (set_dpEpsilon (1 / 2) default_params) "CAIP" 500
     = map (fun loss => (2 * loss)%float)
         (ComputePrivacyLoss (set_dpEpsilon 1 default_params) "CAIP" 500).
Proof.
  split; [split; reflexivity|].
  apply (C9_privacy_constant_and_halving_doubles default_params "CAIP" 500 1%float);
    reflexivity.
Defined.

(** At [eps = 1.5 * 2^1023] the loss [2 / eps] is subnormal and is rounded
    to fewer bits than [2 / (eps / 2)]: the loss for half the budget is not
    twice the loss. *)
Lemma C9_counterexample :
  let eps := 0x1.8p+1023%float in
  (eps / 2 = 0x1.8p+1022)%float
  /\ ComputePrivacyLoss (set_dpEpsilon eps default_params) "CAIP" 500
     = repeat 1.4833825723381344e-308%float 6
  /\ ComputePrivacyLoss (set_dpEpsilon (eps / 2) default_params) "CAIP" 500
     = repeat 2.9667651446762683e-308%float 6
  /\ (2 * 1.4833825723381344e-308 = 2.9667651446762688e-308)%float
  /\ (2.9667651446762683e-308 =? 2.9667651446762688e-308)%float = false.
Proof. vm_compute. repeat split. Qed.

(** ** Further properties of the sink and of the sweep *)

Section More.
Context {P : Platform}.

Lemma first_header_None (f : string) (ws : list write) :
  first_header f ws = None <-> ~ In f (map (fun c : write => c.1.1) ws).
Proof.
  induction ws as [|c ws IH]; cbn [first_header map In]; [tauto|].
  destruct (String.eqb_spec c.1.1 f) as [E|E].
  - split; [discriminate|]. intros H. exfalso. apply H. left. exact E.
  - rewrite IH. tauto.
Qed.

(** X1.  One call of [LogToCsv] changes the named file and its mark only: every
    other file and every other mark is as before, and the engine is not
    drawn from. *)
Theorem LogToCsv_frame (filename hdr : string) (values : list float) (w : World)
    (other : string) :
  other <> filename ->
  disk (LogToCsv filename hdr values w).2 !! other = disk w !! other
  /\ seen (LogToCsv filename hdr values w).2 other = seen w other
  /\ gen (LogToCsv filename hdr values w).2 = gen w.
Proof.
  intros Hne. rewrite LogToCsv_world. cbn [snd disk gen]. unfold seen. cbn [initialized].
  split; [destruct (openable w filename); [rewrite lookup_insert_ne by congruence|];
          reflexivity|].
  rewrite lookup_insert_ne by congruence. split; reflexivity.
Qed.

(** X2.  Once a file is marked as written by this process, calls for it only add
    rows: no header is written again, and the header passed is not used,
    whatever it is.  When the file cannot be opened it stays as it is. *)
Theorem marked_file_only_grows (ws : list write) (w : World) (f : string) :
  seen w f = true -> In f (map (fun c : write => c.1.1) ws) ->
  disk (apply_writes ws w) !! f
  = (if openable w f then Some (default [] (disk w !! f) ++ rows_for f ws)
     else disk w !! f)
  /\ seen (apply_writes ws w) f = true.
Proof.
  intros Hs Hin. split.
  - rewrite disk_apply_writes, Hs.
    destruct (first_header f ws) as [hdr|] eqn:E; [reflexivity|].
    apply first_header_None in E. contradiction.
  - clear Hin. revert w Hs. induction ws as [|c ws IH]; intros w Hs; [exact Hs|].
    cbn [apply_writes fold_left]. apply IH. rewrite seen_apply_write, Hs.
    apply orb_true_r.
Qed.

Lemma sweep_writes_rows (params : SimulationParams) (ms : list string) (g : Engine) :
  length (sweep_writes params ms g).1 = (5 * length ms)%nat
  /\ (forall c : write, In c (sweep_writes params ms g).1 ->
        length c.2 = length (nStaValues params))
  /\ (sweep_writes params ms g).2
     = (draw_n (length ms * length (nStaValues params)) g).2.
Proof.
  revert g. induction ms as [|mode ms IH]; intros g.
  - cbn. split; [reflexivity|]. split; [intros c []|reflexivity].
  - cbn [sweep_writes length Nat.mul]. rewrite draw_n_app.
    pose proof (draw_n_length (length (nStaValues params)) g) as Hl.
    destruct (draw_n (length (nStaValues params)) g) as [xs g1]. cbn [fst snd] in *.
    destruct (IH g1) as (IH1 & IH2 & IH3).
    destruct (sweep_writes params ms g1) as [ws g2]. cbn [fst snd] in *.
    split; [rewrite length_app, IH1; cbn; lia|]. split; [|exact IH3].
    intros c Hc. apply in_app_iff in Hc as [Hc|Hc]; [|apply IH2; exact Hc].
    unfold writes_of_mode in Hc. cbn [In] in Hc.
    destruct Hc as [<-|[<-|[<-|[<-|[<-|[]]]]]]; cbn [snd];
      unfold ComputeLatency, ComputeThroughput, ComputeEnergyEfficiency,
        ComputePrivacyLoss; rewrite ?length_map; try reflexivity.
    exact Hl.
Qed.

(** X4.  The loop over the modes calls [LogToCsv] five times per mode, each time
    with exactly one value per swept size, and draws from the engine once
    per mode and swept size. *)
Theorem sweep_calls_and_draws (params : SimulationParams) (w : World) :
  let ws := (sweep_writes params (modes params) (gen w)).1 in
  disk (MetricsForAllModes params w).2 = disk (apply_writes ws w)
  /\ length ws = (5 * length (modes params))%nat
  /\ (forall c : write, In c ws -> length c.2 = length (nStaValues params))
  /\ gen (MetricsForAllModes params w).2
     = (draw_n (length (modes params) * length (nStaValues params)) (gen w)).2.
Proof.
  intros ws. rewrite MetricsForAllModes_world. cbn [snd set_gen disk gen].
  destruct (sweep_writes_rows params (modes params) (gen w)) as (H1 & H2 & H3).
  repeat split; assumption.
Qed.

Lemma sweep_writes_names (params : SimulationParams) (g : Engine) :
  modes params = ["AITP"; "CAIP"; "NAP"] ->
  map (fun c : write => c.1.1) (sweep_writes params (modes params) g).1 = output_files.
Proof.
  intros Hm. destruct (sweep_writes_three params g Hm) as (r0 & r1 & r2 & -> & _).
  reflexivity.
Qed.

(** X5.  The loop over the three modes, run from the start of a process,
    replaces each of the fifteen files [results_<mode>_<metric>.csv] it
    can open by the header and one row with a value per swept size, and
    leaves every other file as it was. *)
Theorem loop_touches_only_its_files (params : SimulationParams)
    (fs : gmap string (list chunk)) (ok : string -> bool) (f : string) :
  modes params = ["AITP"; "CAIP"; "NAP"] ->
  let after := disk (MetricsForAllModes params (process_start fs ok)).2 in
  (In f output_files -> ok f = true ->
     exists values : list float,
       after !! f = Some ([Str header; Endl] ++ row values)
       /\ length values = length (nStaValues params))
  /\ (ok f = false -> after !! f = fs !! f)
  /\ (~ In f output_files -> after !! f = fs !! f).
Proof.
  intros Hm after. subst after. rewrite MetricsForAllModes_world.
  cbn [snd set_gen disk]. rewrite disk_apply_writes.
  cbn [process_start openable disk gen]. unfold seen. cbn [initialized process_start].
  rewrite lookup_empty. cbn [default from_option].
  split; [|split].
  - intros Hin Hok. rewrite Hok.
    destruct (sweep_writes_three params engine_default Hm)
      as (r0 & r1 & r2 & -> & L0 & L1 & L2).
    assert (forall m, length (series m params "AITP" (nSta params))
                      = length (nStaValues params)
                      /\ length (series m params "CAIP" (nSta params))
                         = length (nStaValues params)
                      /\ length (series m params "NAP" (nSta params))
                         = length (nStaValues params)) as Ls.
    { intros m. destruct m; cbn [series];
        unfold ComputeLatency, ComputeThroughput, ComputeEnergyEfficiency,
          ComputePrivacyLoss; rewrite !length_map; auto. }
    pose proof (Ls Latency) as (A1 & A2 & A3).
    pose proof (Ls Throughput) as (B1 & B2 & B3).
    pose proof (Ls EnergyEfficiency) as (C1 & C2 & C3).
    pose proof (Ls PrivacyLoss) as (D1 & D2 & D3).
    cbn [series] in *. cbn in Hin.
    repeat (destruct Hin as [<-|Hin];
      [eexists; split; [cbn; rewrite ?app_nil_r; reflexivity|assumption]|]).
    destruct Hin.
  - intros Hok. rewrite Hok. destruct (first_header f _); reflexivity.
  - intros Hnot.
    destruct (first_header f (sweep_writes params (modes params) engine_default).1)
      as [hdr|] eqn:E; [|reflexivity].
    exfalso. apply Hnot. rewrite <- (sweep_writes_names params engine_default Hm).
    destruct (in_dec String.string_dec f
                (map (fun c : write => c.1.1)
                   (sweep_writes params (modes params) engine_default).1))
      as [Hin|Hn]; [exact Hin|].
    apply first_header_None in Hn. congruence.
Qed.

(** X6.  Running the loop again in a fresh process, on the files the first
    process left and with the same paths openable, leaves the same disk. *)
Theorem loop_again_same_disk (params : SimulationParams)
    (fs : gmap string (list chunk)) (ok : string -> bool) :
  let first := disk (MetricsForAllModes params (process_start fs ok)).2 in
  disk (MetricsForAllModes params (process_start first ok)).2 = first.
Proof.
  intros first. subst first. rewrite !MetricsForAllModes_world.
  cbn [snd set_gen disk]. apply map_eq. intros f.
  rewrite !(disk_apply_writes _ _ f).
  cbn [process_start openable disk gen]. unfold seen. cbn [initialized process_start].
  rewrite lookup_empty. cbn [default from_option].
  rewrite !(disk_apply_writes _ _ f).
  cbn [process_start openable disk gen]. unfold seen. cbn [initialized process_start].
  rewrite lookup_empty. cbn [default from_option].
  destruct (first_header f _); [destruct (ok f)|]; reflexivity.
Qed.

End More.

Lemma loop_touches_only_its_files_witness :
  modes default_params = ["AITP"; "CAIP"; "NAP"]
  /\ (~ In "notes.txt" output_files ->
      disk (MetricsForAllModes (P := Sample.platform) default_params
              (process_start {[ "notes.txt" := [Str "kept"] ]} (fun _ => true))).2
        !! "notes.txt"
      = ({[ "notes.txt" := [Str "kept"] ]} : gmap string (list chunk)) !! "notes.txt").
Proof.
  split; [reflexivity|].
  exact (proj2 (proj2 (loop_touches_only_its_files (P := Sample.platform) default_params
                         {[ "notes.txt" := [Str "kept"] ]} (fun _ => true) "notes.txt"
                         eq_refl))).
Defined.

Lemma LogToCsv_frame_witness :
  "b.csv" <> "a.csv"
  /\ disk (LogToCsv (P := Sample.platform) "a.csv" "h" [1%float] (process_start ∅ (fun _ => true))).2
       !! "b.csv" = (∅ : gmap string (list chunk)) !! "b.csv"
  /\ seen (LogToCsv (P := Sample.platform) "a.csv" "h" [1%float] (process_start ∅ (fun _ => true))).2 "b.csv"
     = seen (P := Sample.platform) (process_start ∅ (fun _ => true)) "b.csv"
  /\ gen (LogToCsv (P := Sample.platform) "a.csv" "h" [1%float] (process_start ∅ (fun _ => true))).2
     = gen (P := Sample.platform) (process_start ∅ (fun _ => true)).
Proof.
  split; [discriminate|].
  apply (LogToCsv_frame (P := Sample.platform) "a.csv" "h" [1%float] (process_start ∅ (fun _ => true))
           "b.csv").
  discriminate.
Defined.

Lemma marked_file_only_grows_witness :
  let w := (LogToCsv (P := Sample.platform) "t.csv" "h" [1%float] (process_start ∅ (fun _ => true))).2 in
  let ws : list write := [("t.csv", "another header", [2%float])] in
  (seen w "t.csv" = true /\ In "t.csv" (map (fun c : write => c.1.1) ws))
  /\ disk (apply_writes ws w) !! "t.csv"
     = (if openable w "t.csv"
        then Some (default [] (disk w !! "t.csv") ++ rows_for "t.csv" ws)
        else disk w !! "t.csv")
  /\ seen (apply_writes ws w) "t.csv" = true.
Proof.
  split; [split; [vm_compute; reflexivity|left; reflexivity]|].
  apply (marked_file_only_grows (P := Sample.platform)); [vm_compute; reflexivity|].
  left; reflexivity.
Defined.

(** ** Edge inputs *)

Section Edges.
Context {P : Platform}.

(** X7.  A swept size of zero and a privacy budget of zero are computed with,
    not rejected: for every strategy the latency at size 0 is [+infinity]
    (the division by zero is not trapped), the energy efficiency at size 0
    is zero, and the privacy loss for budget 0 is [+infinity]. *)
Theorem zero_size_zero_budget (params : SimulationParams) (mode : string) (k : Z) :
  ComputeLatency (set_nStaValues [0] params) mode k = [infinity]
  /\ ComputeEnergyEfficiency (set_nStaValues [0] params) mode k = [0%float]
  /\ ComputePrivacyLoss (set_dpEpsilon 0 params) mode k
     = repeat infinity (length (nStaValues params)).
Proof.
  split; [|split].
  - unfold ComputeLatency. cbn [map nStaValues set_nStaValues].
    destruct (String.eqb mode "AITP"); [reflexivity|].
    destruct (String.eqb mode "CAIP"); reflexivity.
  - unfold ComputeEnergyEfficiency. cbn [map nStaValues set_nStaValues].
    destruct (String.eqb mode "AITP"); [reflexivity|].
    destruct (String.eqb mode "CAIP"); reflexivity.
  - rewrite ComputePrivacyLoss_repeat. cbn [nStaValues dpEpsilon set_dpEpsilon].
    f_equal.
    destruct (String.eqb mode "AITP"); [reflexivity|].
    destruct (String.eqb mode "CAIP"); reflexivity.
Qed.

(** X8.  With no swept size every model returns the empty series and
    [ComputeRobustness] draws nothing; logging an empty series from a
    process start to a file that can be opened leaves the header line and
    an empty line. *)
Theorem empty_sweep (params : SimulationParams) (m : metric) (mode : string) (k : Z)
    (w : World) (filename hdr : string) (fs : gmap string (list chunk))
    (ok : string -> bool) :
  series m (set_nStaValues [] params) mode k = []
  /\ ComputeRobustness (set_nStaValues [] params) mode k w = ([], w)
  /\ (ok filename = true ->
      disk (LogToCsv filename hdr [] (process_start fs ok)).2 !! filename
      = Some [Str hdr; Endl; Endl]).
Proof.
  split; [destruct m; reflexivity|]. split; [destruct w; reflexivity|].
  intros Hok. rewrite LogToCsv_world. cbn [snd disk openable process_start].
  rewrite Hok, lookup_insert_eq.
  unfold seen. cbn [process_start initialized]. rewrite lookup_empty. reflexivity.
Qed.

End Edges.

(** ** The strategies against each other, up to a million *)

Lemma holds_from_sound (p : int -> bool) (fuel : nat) (c : int) :
  holds_from p fuel c = true ->
  Uint63.to_Z c + Z.of_nat fuel < wB ->
  forall a : int,
    Uint63.to_Z c <= Uint63.to_Z a < Uint63.to_Z c + Z.of_nat fuel -> p a = true.
Proof.
  revert c. induction fuel as [|fuel IH]; intros c Hh Hw a Ha; [lia|].
  cbn [holds_from] in Hh. apply andb_true_iff in Hh as [Hc Hrest].
  destruct (Z.eq_dec (Uint63.to_Z a) (Uint63.to_Z c)) as [Hac|Hac].
  - apply Uint63.to_Z_inj in Hac. subst a. exact Hc.
  - assert (Uint63.to_Z (c + 1)%uint63 = Uint63.to_Z c + 1) as Hc1 by (apply to_Z_succ; lia).
    apply (IH (c + 1)%uint63); [exact Hrest|lia|lia].
Qed.

Lemma check_strategies : holds_from strategies_ordered_at 1000000 1 = true.
Proof. vm_compute. reflexivity. Qed.

(** X9.  At every swept size from 1 to a million the strategies are strictly
    ordered as the comments of the models say: AITP below CAIP below any
    other identifier (NAP) in latency, and AITP above CAIP above NAP in
    energy efficiency. *)
Theorem strategies_ordered_to_a_million (params : SimulationParams) (k n : Z) (other : string) :
  1 <= n <= 1000000 -> other <> "AITP" -> other <> "CAIP" ->
  exists la lc ln ea ec en : float,
    ComputeLatency (set_nStaValues [n] params) "AITP" k = [la]
    /\ ComputeLatency (set_nStaValues [n] params) "CAIP" k = [lc]
    /\ ComputeLatency (set_nStaValues [n] params) other k = [ln]
    /\ ComputeEnergyEfficiency (set_nStaValues [n] params) "AITP" k = [ea]
    /\ ComputeEnergyEfficiency (set_nStaValues [n] params) "CAIP" k = [ec]
    /\ ComputeEnergyEfficiency (set_nStaValues [n] params) other k = [en]
    /\ (la <? lc)%float = true /\ (lc <? ln)%float = true
    /\ (en <? ec)%float = true /\ (ec <? ea)%float = true.
Proof.
  intros Hn H1 H2. apply String.eqb_neq in H1, H2.
  assert (Z.of_nat 1000000 = 1000000) as Hfuel by (vm_compute; reflexivity).
  pose proof (holds_from_sound _ _ _ check_strategies) as Hs.
  rewrite Hfuel in Hs. change (Uint63.to_Z 1) with 1 in Hs.
  specialize (Hs ltac:(change wB with 9223372036854775808; lia) (Uint63.of_Z n)).
  rewrite Uint63.of_Z_spec, Z.mod_small in Hs
    by (change wB with 9223372036854775808; lia).
  specialize (Hs ltac:(lia)). unfold strategies_ordered_at in Hs.
  apply andb_true_iff in Hs as [Hs Hd]. apply andb_true_iff in Hs as [Hs Hc].
  apply andb_true_iff in Hs as [Ha Hb].
  unfold ComputeLatency, ComputeEnergyEfficiency.
  cbn [map nStaValues set_nStaValues]. rewrite H1, H2.
  unfold u32_to_double, u32. rewrite Z.mod_small by lia.
  do 6 eexists. repeat split; assumption.
Qed.

Lemma strategies_ordered_witness :
  (1 <= 500 <= 1000000 /\ "NAP" <> "AITP" /\ "NAP" <> "CAIP")
  /\ exists la lc ln ea ec en : float,
    ComputeLatency (set_nStaValues [500] default_params) "AITP" 500 = [la]
    /\ ComputeLatency (set_nStaValues [500] default_params) "CAIP" 500 = [lc]
    /\ ComputeLatency (set_nStaValues [500] default_params) "NAP" 500 = [ln]
    /\ ComputeEnergyEfficiency (set_nStaValues [500] default_params) "AITP" 500 = [ea]
    /\ ComputeEnergyEfficiency (set_nStaValues [500] default_params) "CAIP" 500 = [ec]
    /\ ComputeEnergyEfficiency (set_nStaValues [500] default_params) "NAP" 500 = [en]
    /\ (la <? lc)%float = true /\ (lc <? ln)%float = true
    /\ (en <? ec)%float = true /\ (ec <? ea)%float = true.
Proof.
  split; [split; [lia|split; discriminate]|].
  apply (strategies_ordered_to_a_million default_params 500 500 "NAP");
    [lia|discriminate|discriminate].
Defined.

(** ** Doubling the budget or the swept size *)

(** X10.  For a privacy budget between [2^-900] and [2^900], halving the budget
    doubles the privacy loss exactly, for every strategy identifier. *)
Theorem privacy_halving_doubles_every_strategy
    (params : SimulationParams) (mode : string) (k : Z) (eps : float) :
  (0x1p-900 <=? eps)%float = true -> (eps <=? 0x1p+900)%float = true ->
  ComputePrivacyLoss (set_dpEpsilon (eps / 2) params) mode k
  = map (fun loss => (2 * loss)%float)
      (ComputePrivacyLoss (set_dpEpsilon eps params) mode k).
Proof.
  intros Hlo Hhi. unfold ComputePrivacyLoss.
  cbn [nStaValues dpEpsilon set_dpEpsilon]. rewrite map_map.
  apply map_ext. intros _.
  destruct (String.eqb mode "AITP").
  { apply two_div_half_times; try assumption. apply exp_inb_true. vm_compute. reflexivity. }
  destruct (String.eqb mode "CAIP").
  { apply two_div_half; [apply leb_weaken_lower|]; assumption. }
  apply two_div_half_times; try assumption. apply exp_inb_true. vm_compute. reflexivity.
Qed.

Lemma privacy_halving_witness :
  ((0x1p-900 <=? 0.1)%float = true /\ (0.1 <=? 0x1p+900)%float = true)
  /\ ComputePrivacyLoss (set_dpEpsilon (0.1 / 2) default_params) "AITP" 500
     = map (fun loss => (2 * loss)%float)
         (ComputePrivacyLoss (set_dpEpsilon 0.1 default_params) "AITP" 500).
Proof.
  split; [split; reflexivity|].
  apply (privacy_halving_doubles_every_strategy default_params "AITP" 500 0.1%float);
    reflexivity.
Defined.

(** X11.  Doubling every swept size (sizes from 1, the doubles below [2^32])
    doubles every energy-efficiency value exactly, for every strategy
    identifier. *)
Theorem energy_doubles_with_size
    (params : SimulationParams) (mode : string) (k : Z) (sizes : list Z) :
  Forall (fun n => 1 <= n /\ 2 * n < 2 ^ 32) sizes ->
  ComputeEnergyEfficiency (set_nStaValues (map (Z.mul 2) sizes) params) mode k
  = map (fun efficiency => (2 * efficiency)%float)
      (ComputeEnergyEfficiency (set_nStaValues sizes params) mode k).
Proof.
  intros Hall. unfold ComputeEnergyEfficiency. cbn [nStaValues set_nStaValues].
  rewrite !map_map. induction Hall as [|n ns [H1 H2] _ IH]; [reflexivity|].
  cbn [map]. rewrite IH. f_equal.
  destruct (String.eqb mode "AITP").
  { apply energy_twice_times; try assumption. apply exp_inb_true. vm_compute. reflexivity. }
  destruct (String.eqb mode "CAIP").
  { apply (energy_twice_times n 1%float); try assumption.
    apply exp_inb_true. vm_compute. reflexivity. }
  apply energy_twice_times; try assumption. apply exp_inb_true. vm_compute. reflexivity.
Qed.

Lemma energy_doubles_witness :
  Forall (fun n => 1 <= n /\ 2 * n < 2 ^ 32) [50; 100; 200]
  /\ ComputeEnergyEfficiency (set_nStaValues (map (Z.mul 2) [50; 100; 200]) default_params)
       "NAP" 500
     = map (fun efficiency => (2 * efficiency)%float)
         (ComputeEnergyEfficiency (set_nStaValues [50; 100; 200] default_params) "NAP" 500).
Proof.
  assert (Forall (fun n => 1 <= n /\ 2 * n < 2 ^ 32) [50; 100; 200]) as H
    by (repeat constructor; lia).
  split; [exact H|].
  apply (energy_doubles_with_size default_params "NAP" 500 [50; 100; 200] H).
Defined.

(** ** Calls for different files *)

(** X3.  Two calls of [LogToCsv] for different files can be made in either
    order: the state they leave is the same. *)
Theorem writes_to_different_files_commute {P : Platform}
    (w : World) (f1 h1 : string) (v1 : list float) (f2 h2 : string) (v2 : list float) :
  f1 <> f2 ->
  (LogToCsv f2 h2 v2 (LogToCsv f1 h1 v1 w).2).2
  = (LogToCsv f1 h1 v1 (LogToCsv f2 h2 v2 w).2).2.
Proof.
  intros Hne. rewrite !LogToCsv_world. cbn [snd initialized gen disk openable].
  unfold seen. cbn [initialized disk].
  destruct (openable w f1), (openable w f2);
    rewrite ?(lookup_insert_ne _ f1 f2) by exact Hne;
    rewrite ?(lookup_insert_ne _ f2 f1) by congruence;
    f_equal; try reflexivity; apply insert_insert_ne; congruence.
Qed.

Lemma writes_commute_witness :
  "a.csv" <> "b.csv"
  /\ (LogToCsv (P := Sample.platform) "b.csv" "h" [2%float]
        (LogToCsv "a.csv" "h" [1%float] (process_start ∅ (fun _ => true))).2).2
     = (LogToCsv (P := Sample.platform) "a.csv" "h" [1%float]
          (LogToCsv "b.csv" "h" [2%float] (process_start ∅ (fun _ => true))).2).2.
Proof.
  split; [discriminate|].
  apply (writes_to_different_files_commute (P := Sample.platform)). discriminate.
Defined.

(** ** The sign of the privacy loss *)

(** X12.  The privacy loss has the sign of the budget: a negative budget is not
    rejected and gives losses that are negative or zero, a positive budget
    gives losses that are positive or zero, for every strategy identifier. *)
Theorem privacy_loss_sign (params : SimulationParams) (mode : string) (k : Z) (eps : float) :
  ((eps <? 0)%float = true ->
   Forall (fun loss => (loss <=? 0)%float = true)
     (ComputePrivacyLoss (set_dpEpsilon eps params) mode k))
  /\ ((0 <? eps)%float = true ->
      Forall (fun loss => (0 <=? loss)%float = true)
        (ComputePrivacyLoss (set_dpEpsilon eps params) mode k)).
Proof.
  rewrite ComputePrivacyLoss_repeat. cbn [dpEpsilon set_dpEpsilon nStaValues].
  destruct (budget_sign_loss eps 0.875 _ _ eq_refl) as [Na Pa].
  destruct (budget_sign_loss eps 1.2 _ _ eq_refl) as [Nn Pn].
  split; intros He; apply List.Forall_forall; intros loss Hin;
    apply repeat_spec in Hin; subst loss; cbn zeta;
    (destruct (String.eqb mode "AITP");
     [|destruct (String.eqb mode "CAIP")]).
  - apply (Na He).
  - apply (Na He).
  - apply (Nn He).
  - apply (Pa He).
  - apply (Pa He).
  - apply (Pn He).
Qed.

Example privacy_loss_negative_budget :
  ComputePrivacyLoss (set_dpEpsilon (-1) default_params) "AITP" 500
  = repeat (-1.75)%float 6.
Proof. vm_compute. reflexivity. Qed.
